(** * A shallow embedding of the CORS filter of [vpxyz/cors] (file [cors.go])

    The file has two parts.  The first one translates [cors.go]: the byte
    utilities [toLowerCase], [trimSpace] and [normalizeHeaders], the
    compiler [initialize] of a [Config], the three matchers and the
    request filter of [Filter], together with the few functions of the Go
    library that they call, the handler of the test suite, and the second
    revision of [cors.go] that the repository holds.  The second part
    states and proves the properties.

    Conventions of the embedding.

    - A Go [string] is a Rocq [string]; a Go [[]byte] is a [list ascii]
      (one [ascii] per byte).  [[]byte(s)] is [list_ascii_of_string] and
      [string(b)] is [string_of_list_ascii].
    - A Go [int] is a [Z].
    - A computation that can end in a run-time panic returns an [option]:
      [None] is the panic.  The panics of the filter come from slice
      expressions with [low > high] and from [regexp.MustCompile].
    - A handler gets the response writer as a value and gives it back in
      an [outcome], after a normal return or at the point of a panic.
    - The optional [*log.Logger] of the configuration only receives
      diagnostic lines: [logWrap] and [String] never influence the policy
      or a response, and they are left out of the embedding. *)

From Stdlib Require Import ZArith Ascii String List Lia.
From stdpp Require Import base option list strings gmap pretty.

Local Open Scope Z_scope.

(** ** Bytes and slices *)

(** [len(s)] *)
Definition len {A} (s : list A) : Z := Z.of_nat (length s).

Definition byte_val (c : ascii) : N := N_of_ascii c.

(** ['A' <= c && c <= 'Z'] *)
Definition is_upper (c : ascii) : bool :=
  ((65 <=? byte_val c) && (byte_val c <=? 90))%N.

(** ['a' <= c && c <= 'z'] *)
Definition is_lower (c : ascii) : bool :=
  ((97 <=? byte_val c) && (byte_val c <=? 122))%N.

(** [c ^ 0x20] *)
Definition xor_0x20 (c : ascii) : ascii :=
  ascii_of_N (N.lxor (byte_val c) 32).

Definition space : ascii := " "%char.
Definition sep : ascii := ","%char.

(** The slice expression [s[lo:hi]] of Go.  Every slice expression of
    [cors.go] has [hi <= len(s)], so that the capacity of [s] (which Go
    uses as the upper bound of [hi]) never matters; the expression panics
    exactly when [lo > hi]. *)
Definition slice (s : list ascii) (lo hi : Z) : option (list ascii) :=
  if bool_decide (0 ≤ lo ∧ lo ≤ hi ∧ hi ≤ len s)
  then Some (take (Z.to_nat (hi - lo)) (drop (Z.to_nat lo) s))
  else None.

(** The index expression [s[i]]. *)
Definition index (s : list ascii) (i : Z) : option ascii :=
  if bool_decide (0 ≤ i) then s !! Z.to_nat i else None.

(** ** [toLowerCase] *)

(** [for i, c := range s { if 'A' <= c && c <= 'Z' { s[i] = c ^ 0x20 } }] *)
Definition toLowerCase (s : list ascii) : list ascii :=
  (λ c, if is_upper c then xor_0x20 c else c) <$> s.

(** ** [trimSpace] *)

(** [for ; start < len(s) && s[start] == ' '; start++ {}], where [rest] is
    [s[start:]]: the loop stops at the first byte that is not a space, or
    with [start = len(s)]. *)
Fixpoint trimSpace_start (rest : list ascii) (start : Z) : Z :=
  match rest with
  | c :: rest' =>
      if Ascii.eqb c space then trimSpace_start rest' (start + 1) else start
  | [] => start
  end.

(** [for ; end > 0 && s[end] == ' '; end-- {}], with [n] the value of
    [end] when it is positive.  The loop never looks at [s[0]]. *)
Fixpoint trimSpace_end (s : list ascii) (n : nat) : option Z :=
  match n with
  | O => Some 0
  | S n' =>
      c ← index s (Z.of_nat n);
      if Ascii.eqb c space then trimSpace_end s n' else Some (Z.of_nat n)
  end.

(** The two indices [(start, end+1)] of the slice that [trimSpace]
    returns. *)
Definition trimSpace_bounds (s : list ascii) : option (Z * Z) :=
  let start := trimSpace_start s 0 in
  let end0 := len s - 1 in
  end_ ← (if bool_decide (0 < end0) then trimSpace_end s (Z.to_nat end0)
          else Some end0);
  Some (start, end_ + 1).

(** [trimSpace(s)]: [return s[start : end+1]]. *)
Definition trimSpace (s : list ascii) : option (list ascii) :=
  b ← trimSpace_bounds s;
  slice s b.1 b.2.

(** ** [normalizeHeaders] *)

(** The slices that [normalizeHeaders] collects all share the backing
    array [s], which the loop keeps writing to.  An element of [ss] is
    therefore kept as the window [s[w_lo : w_hi]] into that array, and the
    bytes are read from the array when the function returns. *)
Record window := Window { w_lo : Z; w_hi : Z }.

Record nh_state := NhState {
  nh_s : list ascii;        (* the backing array of [s] *)
  nh_start : Z;             (* [start] *)
  nh_ss : list window       (* [ss] *)
}.

(** [trimSpace(s[lo:hi])] as a window of the backing array. *)
Definition trimSpace_window (s : list ascii) (lo hi : Z) : option window :=
  sub ← slice s lo hi;
  b ← trimSpace_bounds sub;
  _ ← slice sub b.1 b.2;
  Some (Window (lo + b.1) (lo + b.2)).

(** The body of [for i, c := range s]. *)
Definition nh_body (st : nh_state) (i : nat) : option nh_state :=
  c ← nh_s st !! i;
  if is_upper c then
    (* s[i] = c ^ 0x20; continue *)
    Some (NhState (<[i := xor_0x20 c]> (nh_s st)) (nh_start st) (nh_ss st))
  else
    si ← index (nh_s st) (Z.of_nat i);
    if Ascii.eqb si sep && bool_decide (nh_start st = Z.of_nat i) then
      (* start++; continue *)
      Some (NhState (nh_s st) (nh_start st + 1) (nh_ss st))
    else if Ascii.eqb si sep then
      (* ss = append(ss, trimSpace(s[start:i])); start = i + 1 *)
      w ← trimSpace_window (nh_s st) (nh_start st) (Z.of_nat i);
      Some (NhState (nh_s st) (Z.of_nat i + 1) (nh_ss st ++ [w]))
    else Some st.

Fixpoint nh_range (idx : list nat) (st : nh_state) : option nh_state :=
  match idx with
  | [] => Some st
  | i :: idx' => st' ← nh_body st i; nh_range idx' st'
  end.

(** [append(ss, trimSpace(s[start:len(s)]))] *)
Definition nh_append_tail (st : nh_state) : option nh_state :=
  w ← trimSpace_window (nh_s st) (nh_start st) (len (nh_s st));
  Some (NhState (nh_s st) (nh_start st) (nh_ss st ++ [w])).

Definition nh_view (s : list ascii) (w : window) : option (list ascii) :=
  slice s (w_lo w) (w_hi w).

Definition normalizeHeaders (headers : string) : option (list (list ascii)) :=
  let s := list_ascii_of_string headers in
  st ← nh_range (seq 0 (length s)) (NhState s 0 []);
  (* if start < len(s) *)
  st ← (if bool_decide (nh_start st < len (nh_s st))
        then nh_append_tail st else Some st);
  (* if len(ss) == 0 *)
  st ← (if bool_decide (length (nh_ss st) = 0%nat)
        then nh_append_tail st else Some st);
  mapM (nh_view (nh_s st)) (nh_ss st).

(** The result of [normalizeHeaders] with every element converted by
    [string(...)]. *)
Definition normalizeHeaders_strings (headers : string) : option (list string) :=
  map string_of_list_ascii <$> normalizeHeaders headers.

Definition bytes (s : string) : list ascii := list_ascii_of_string s.

(** ** The functions of [strings], [bytes], [strconv] and [regexp] that the
    filter calls

    They are written for byte strings: headers, methods and origins are
    ASCII, and on ASCII input the rune-based functions of Go ([ToUpper],
    [TrimSpace], [IndexAny], the [.] of a regular expression) work byte by
    byte. *)

Definition str (b : list ascii) : string := string_of_list_ascii b.

(** [strings.Split(s, ",")] and [bytes.Split(s, []byte(","))]: the pieces
    between the separators, [n + 1] pieces for [n] separators. *)
Fixpoint split_on (c0 : ascii) (s : list ascii) : list (list ascii) :=
  match s with
  | [] => [[]]
  | c :: s' =>
      if Ascii.eqb c c0 then [] :: split_on c0 s'
      else match split_on c0 s' with
           | t :: ts => (c :: t) :: ts
           | [] => [[c]]
           end
  end.

Definition strings_Split (s : string) (c0 : ascii) : list string :=
  str <$> split_on c0 (bytes s).

Definition bytes_Split (s : list ascii) (c0 : ascii) : list (list ascii) :=
  split_on c0 s.

(** [bytes.ToUpper] on ASCII. *)
Definition bytes_ToUpper (s : list ascii) : list ascii :=
  (λ c, if is_lower c then xor_0x20 c else c) <$> s.

(** [strings.HasPrefix] *)
Fixpoint has_prefix (s p : list ascii) : bool :=
  match p, s with
  | [], _ => true
  | c :: p', x :: s' => Ascii.eqb c x && has_prefix s' p'
  | _ :: _, [] => false
  end.

(** [strings.HasSuffix(s, suffix)]:
    [len(s) >= len(suffix) && s[len(s)-len(suffix):] == suffix] *)
Definition strings_HasSuffix (s suffix : string) : bool :=
  bool_decide (len (bytes suffix) ≤ len (bytes s)) &&
  bool_decide (drop (length (bytes s) - length (bytes suffix)) (bytes s)
               = bytes suffix).

Fixpoint index_from (s sub : list ascii) (i : Z) : Z :=
  if has_prefix s sub then i
  else match s with
       | [] => -1
       | _ :: s' => index_from s' sub (i + 1)
       end.

(** [strings.Index(s, substr)]: the index of the first instance of
    [substr] in [s], or [-1]. *)
Definition strings_Index (s substr : string) : Z :=
  index_from (bytes s) (bytes substr) 0.

Fixpoint index_any_from (s chars : list ascii) (i : Z) : Z :=
  match s with
  | [] => -1
  | c :: s' =>
      if bool_decide (c ∈ chars) then i else index_any_from s' chars (i + 1)
  end.

(** [strings.IndexAny(s, chars)]: the index of the first byte of [s] that
    is one of [chars], or [-1]. *)
Definition strings_IndexAny (s chars : string) : Z :=
  index_any_from (bytes s) (bytes chars) 0.

(** [strings.Count(s, substr)] for a [substr] of one byte. *)
Definition strings_Count (s : string) (c : ascii) : Z :=
  len (filter (λ x, x = c) (bytes s)).

(** [strings.TrimSpace] on ASCII: tab, line feed, vertical tab, form feed,
    carriage return and space are removed at both ends. *)
Fixpoint trim_left (s : list ascii) : list ascii :=
  match s with
  | c :: s' => if Ascii.is_space c then trim_left s' else s
  | [] => []
  end.

Definition strings_TrimSpace (s : string) : string :=
  str (reverse (trim_left (reverse (trim_left (bytes s))))).

(** [strings.Replace(s, old, new, -1)] for a non-empty [old]: every
    non-overlapping instance of [old], from the left.  [skip] counts the
    bytes of an instance that was just replaced. *)
Fixpoint replace_go (s old new : list ascii) (skip : nat) : list ascii :=
  match s with
  | [] => []
  | c :: s' =>
      match skip with
      | S k => replace_go s' old new k
      | O =>
          if has_prefix s old
          then new ++ replace_go s' old new (length old - 1)
          else c :: replace_go s' old new 0
      end
  end.

Definition strings_Replace (s old new : string) : string :=
  str (replace_go (bytes s) (bytes old) (bytes new) 0).

(** [strconv.Itoa] *)
Definition strconv_Itoa (n : Z) : string := pretty n.

(** The bytes that [regexp.QuoteMeta] escapes. *)
Definition re_special : list ascii := bytes "\.+*?()|[]{}^$".

(** [regexp.QuoteMeta] *)
Definition regexp_QuoteMeta (s : string) : string :=
  str (flat_map (λ c, if bool_decide (c ∈ re_special)
                      then ["\"%char; c] else [c]) (bytes s)).

(** The regular expressions that [initialize] can build: a sequence of
    literal bytes, of [.] and of [.*]. *)
Inductive re_atom :=
  | ReLit (c : ascii)      (* a byte, written as itself or escaped *)
  | ReAny                  (* [.] : any byte but a line feed *)
  | ReStar.                (* [.*] *)

Definition Regexp := list re_atom.

(** [regexp.MustCompile], on the syntax that [QuoteMeta] and the two
    replacements of [initialize] produce.  [None] is the panic of
    [MustCompile]; an operator outside this syntax is also answered by
    [None]. *)
Fixpoint re_parse (p : list ascii) : option Regexp :=
  match p with
  | [] => Some []
  | c :: p' =>
      if Ascii.eqb c "\"%char then
        match p' with
        | x :: p'' =>
            if bool_decide (x ∈ re_special)
            then r ← re_parse p''; Some (ReLit x :: r) else None
        | [] => None
        end
      else if Ascii.eqb c "."%char then
        match p' with
        | x :: p'' =>
            if Ascii.eqb x "*"%char
            then r ← re_parse p''; Some (ReStar :: r)
            else r ← re_parse p'; Some (ReAny :: r)
        | [] => Some [ReAny]
        end
      else if bool_decide (c ∈ re_special) then None
      else r ← re_parse p'; Some (ReLit c :: r)
  end.

Definition regexp_MustCompile (p : string) : option Regexp :=
  re_parse (bytes p).

Definition line_feed : ascii := "010"%char.

(** [.*] followed by [k]: [k] on the rest of the input after any number of
    bytes other than a line feed. *)
Fixpoint re_star (k : list ascii → bool) (s : list ascii) : bool :=
  k s ||
  match s with
  | x :: s' => negb (Ascii.eqb x line_feed) && re_star k s'
  | [] => false
  end.

(** A match of [re] that starts at the first byte of [s]. *)
Fixpoint re_match_here (re : Regexp) (s : list ascii) : bool :=
  match re with
  | [] => true
  | ReLit c :: re' =>
      match s with
      | x :: s' => Ascii.eqb c x && re_match_here re' s'
      | [] => false
      end
  | ReAny :: re' =>
      match s with
      | x :: s' => negb (Ascii.eqb x line_feed) && re_match_here re' s'
      | [] => false
      end
  | ReStar :: re' => re_star (re_match_here re') s
  end.

Fixpoint re_search (re : Regexp) (s : list ascii) : bool :=
  re_match_here re s ||
  match s with
  | _ :: s' => re_search re s'
  | [] => false
  end.

(** [MatchString] of a compiled expression: some substring of [s]
    matches. *)
Definition MatchString (re : Regexp) (s : string) : bool :=
  re_search re (bytes s).

(** ** Constants *)

Definition DefaultAllowedOrigin : string := "*".
Definition DefaultAllowedMethods : string := "GET,POST,HEAD,OPTIONS".
Definition DefaultAllowedHeaders : string :=
  "Origin,Accept,Content-Type,Accept-Language,Content-Language,Last-Event-ID".
Definition DefaultMaxAge : Z := 1800.
Definition AccessControlAllowOrigin : string := "Access-Control-Allow-Origin".
Definition AccessControlExposeHeaders : string := "Access-Control-Expose-Headers".
Definition AccessControlControlMaxAge : string := "Access-Control-Max-Age".
Definition AccessControlAllowMethods : string := "Access-Control-Allow-Methods".
Definition AccessControlAllowHeaders : string := "Access-Control-Allow-Headers".
Definition AccessControlAllowCredentials : string :=
  "Access-Control-Allow-Credentials".
Definition AccessControlRequestMethod : string := "Access-Control-Request-Method".
Definition AccessControlRequestHeaders : string :=
  "Access-Control-Request-Headers".
Definition OriginHeader : string := "Origin".
Definition VaryHeader : string := "Vary".
Definition MethodOptions : string := "OPTIONS".
Definition StatusOK : Z := 200.
Definition StatusForbidden : Z := 403.
Definition StatusMethodNotAllowed : Z := 405.

(** ** The configuration and the compiled filter *)

Record Config := {
  AllowedOrigins : string;
  AllowedMethods : string;
  AllowedHeaders : string;
  ExposedHeaders : string;
  MaxAge : Z;
  AllowCredentials : bool;
  ForwardRequest : bool
}.

Record cors := {
  allowedRegexOrigins : list Regexp;
  allowedStaticOrigins : list string;
  allowedSuffixOrigins : list string;
  allowedMethods : gmap string bool;
  allowedHeaders : gmap string bool;
  allowedHeadersString : string;
  allowedMethodsString : string;
  hostName : string;
  maxAge : string;
  exposedHeaders : string;
  exposeHeader : bool;
  allowAllOrigins : bool;
  allowAllHeaders : bool;
  allowCredentials : bool;
  forwardRequest : bool
}.

(** [allowed]: [for _, a := range allowed { m[string(a)] = true }] *)
Definition allowed (l : list (list ascii)) : gmap string bool :=
  foldl (λ m a, <[str a := true]> m) ∅ l.

(** The three kinds of origins that the loop of [initialize] fills. *)
Record origin_lists := {
  ol_regex : list Regexp;
  ol_static : list string;
  ol_suffix : list string
}.

(** The string slice [o[lo:len(o)]]. *)
Definition string_from (o : string) (lo : Z) : option string :=
  str <$> slice (bytes o) lo (len (bytes o)).

(** The body of [for _, o := range origins]. *)
Definition origin_body (acc : origin_lists) (o : string) : option origin_lists :=
  if bool_decide (strings_IndexAny o "*" = -1) then
    Some {| ol_regex := ol_regex acc;
            ol_static := ol_static acc ++ [o];
            ol_suffix := ol_suffix acc |}
  else if bool_decide (strings_Index o "*." = 0) then
    tl ← string_from o 2;
    Some {| ol_regex := ol_regex acc;
            ol_static := ol_static acc;
            ol_suffix := ol_suffix acc ++ [tl] |}
  else if bool_decide (0 < strings_Count o "*"%char)
          || bool_decide (0 < strings_Count o "?"%char) then
    let p := regexp_QuoteMeta (strings_TrimSpace o) in
    let p := strings_Replace p "\*" ".*" in
    let p := strings_Replace p "\?" "." in
    r ← regexp_MustCompile p;
    Some {| ol_regex := ol_regex acc ++ [r];
            ol_static := ol_static acc;
            ol_suffix := ol_suffix acc |}
  else Some acc.

Fixpoint origin_range (origins : list string) (acc : origin_lists)
  : option origin_lists :=
  match origins with
  | [] => Some acc
  | o :: rest => acc' ← origin_body acc o; origin_range rest acc'
  end.

Definition no_origins : origin_lists :=
  {| ol_regex := []; ol_static := []; ol_suffix := [] |}.

(** [initialize].  Every field starts from the default of the composite
    literal (or from the zero value) and is assigned at most once
    afterwards, so each one is computed by one definition below. *)
Definition initialize (config : Config) : option cors :=
  (* allowedHeaders: allowed(normalizeHeaders(DefaultAllowedHeaders)) *)
  defaultHeaders ← normalizeHeaders DefaultAllowedHeaders;
  (* if len(config.AllowedOrigins) > 0 && config.AllowedOrigins != "*" *)
  let listed := bool_decide (0 < len (bytes (AllowedOrigins config)))
                && bool_decide (AllowedOrigins config ≠ "*") in
  ol ← (if listed
        then origin_range (strings_Split (AllowedOrigins config) sep) no_origins
        else Some no_origins);
  (* if len(config.AllowedMethods) > 0 *)
  let methods :=
    if bool_decide (0 < len (bytes (AllowedMethods config)))
    then (allowed (bytes_Split (bytes_ToUpper (bytes (AllowedMethods config))) sep),
          AllowedMethods config)
    else (allowed (bytes_Split (bytes DefaultAllowedMethods) sep),
          DefaultAllowedMethods) in
  (* if len(config.AllowedHeaders) > 0 *)
  hs ← (if bool_decide (0 < len (bytes (AllowedHeaders config))) then
          if bool_decide (AllowedHeaders config = strings_TrimSpace "*")
          then Some (true, allowed defaultHeaders, "*")
          else headers ← normalizeHeaders (AllowedHeaders config);
               Some (false, allowed headers, AllowedHeaders config)
        else Some (false, allowed defaultHeaders, DefaultAllowedHeaders));
  let allowAll := negb listed in
  Some {|
    allowedRegexOrigins := ol_regex ol;
    allowedStaticOrigins := ol_static ol;
    allowedSuffixOrigins := ol_suffix ol;
    allowedMethods := methods.1;
    allowedHeaders := hs.1.2;
    allowedHeadersString := hs.2;
    allowedMethodsString := methods.2;
    hostName := "";
    (* if config.MaxAge > 0 { c.maxAge = strconv.Itoa(config.MaxAge) } *)
    maxAge := if bool_decide (0 < MaxAge config)
              then strconv_Itoa (MaxAge config) else "1800";
    (* if len(config.ExposedHeaders) > 0 *)
    exposedHeaders := if bool_decide (0 < len (bytes (ExposedHeaders config)))
                      then ExposedHeaders config else "";
    exposeHeader := bool_decide (0 < len (bytes (ExposedHeaders config)));
    allowAllOrigins := allowAll;
    allowAllHeaders := hs.1.1;
    (* if config.AllowCredentials && c.allowAllOrigins { log }
       else { c.allowCredentials = config.AllowCredentials } *)
    allowCredentials := if AllowCredentials config && allowAll
                        then false else AllowCredentials config;
    forwardRequest := ForwardRequest config
  |}.

(** [isOriginAllowed] *)
Definition isOriginAllowed (c : cors) (origin : string) : bool :=
  if allowAllOrigins c then true
  else if existsb (λ o, bool_decide (o = origin)) (allowedStaticOrigins c) then true
  else if existsb (λ o, bool_decide (len (bytes o) ≤ len (bytes origin))
                        && strings_HasSuffix origin o)
                  (allowedSuffixOrigins c) then true
  else if existsb (λ o, MatchString o origin) (allowedRegexOrigins c) then true
  else false.

(** [isMethodAllowed]: a key that is not in the map reads as [false]. *)
Definition isMethodAllowed (c : cors) (method : string) : bool :=
  default false (allowedMethods c !! method).

(** [for _, header := range normalizeHeaders(reqHeaders)] *)
Fixpoint headers_range (c : cors) (hs : list (list ascii)) : bool :=
  match hs with
  | [] => true
  | header :: hs' =>
      if negb (default false (allowedHeaders c !! str header)) then false
      else headers_range c hs'
  end.

(** [areReqHeadersAllowed] *)
Definition areReqHeadersAllowed (c : cors) (reqHeaders : string) : option bool :=
  if allowAllHeaders c || bool_decide (len (bytes reqHeaders) = 0) then Some true
  else hs ← normalizeHeaders reqHeaders; Some (headers_range c hs).

(** ** Requests, responses and handlers *)

(** [http.Header] is a [map[string][]string].  [Get] and [Add] first bring
    the key to its canonical form; every key that the filter passes is one
    of the constants above, which are canonical already. *)
Abbreviation Header := (gmap string (list string)).

(** [h.Get(key)]: the first value of the key, or the empty string. *)
Definition Header_Get (h : Header) (key : string) : string :=
  match h !! key with
  | Some (v :: _) => v
  | _ => ""
  end.

(** [h.Add(key, value)]: [h[key] = append(h[key], value)] *)
Definition Header_Add (h : Header) (key value : string) : Header :=
  <[key := default [] (h !! key) ++ [value]]> h.

Record Request := {
  Method : string;
  ReqHeader : Header;
  RemoteAddr : string
}.

(** The [http.ResponseWriter], as [httptest.ResponseRecorder] implements
    it: the status code is 200 until the first [WriteHeader], and later
    calls of [WriteHeader] change nothing. *)
Record ResponseWriter := {
  header : Header;
  Code : Z;
  wroteHeader : bool;
  Body : list ascii
}.

Definition NewRecorder : ResponseWriter :=
  {| header := ∅; Code := 200; wroteHeader := false; Body := [] |}.

(** [w.WriteHeader(code)] *)
Definition WriteHeader (w : ResponseWriter) (code : Z) : ResponseWriter :=
  if wroteHeader w then w
  else {| header := header w; Code := code; wroteHeader := true;
          Body := Body w |}.

(** [w.Write(b)] *)
Definition Write (w : ResponseWriter) (b : list ascii) : ResponseWriter :=
  let w := WriteHeader w 200 in
  {| header := header w; Code := Code w; wroteHeader := wroteHeader w;
     Body := Body w ++ b |}.

(** [w.Header().Add(key, value)] *)
Definition add_header (w : ResponseWriter) (key value : string) : ResponseWriter :=
  {| header := Header_Add (header w) key value; Code := Code w;
     wroteHeader := wroteHeader w; Body := Body w |}.

(** What a call of [ServeHTTP] leaves behind: the response writer, after a
    normal return or at the point of a panic. *)
Inductive outcome :=
  | Returned (w : ResponseWriter)
  | Panicked (w : ResponseWriter).

Definition writer (o : outcome) : ResponseWriter :=
  match o with Returned w | Panicked w => w end.

(** [http.Handler] *)
Definition Handler := ResponseWriter → Request → outcome.

(** ** [Filter] *)

(** The closure [filter] that [Filter] returns, for the compiled
    configuration [c] and the handler [next]. *)
Definition filter (c : cors) (next : Handler) : Handler := λ w r,
  let origin := Header_Get (ReqHeader r) OriginHeader in
  (* It's a same origin request ? *)
  if bool_decide (origin = "") then next w r
  else
    (* Allways add "Vary:Origin" header *)
    let w := add_header w VaryHeader OriginHeader in
    if negb (isOriginAllowed c origin) then
      Returned (WriteHeader w StatusForbidden)
    else if negb (isMethodAllowed c (Method r)) then
      Returned (WriteHeader w StatusMethodNotAllowed)
    else
      (* Ok, origin and method are allowed *)
      let w := add_header w AccessControlAllowOrigin origin in
      if bool_decide (Method r ≠ MethodOptions) then
        (* a simple cross-origin request *)
        let w := if exposeHeader c
                 then add_header w AccessControlExposeHeaders (exposedHeaders c)
                 else w in
        let w := if allowCredentials c
                 then add_header w AccessControlAllowCredentials "true"
                 else w in
        next w r
      else
        (* a preflight request *)
        let w := add_header w VaryHeader
                   (AccessControlRequestMethod +:+ ", " +:+
                    AccessControlRequestHeaders) in
        let acReqMethod := Header_Get (ReqHeader r) AccessControlRequestMethod in
        if negb (isMethodAllowed c acReqMethod) then
          Returned (WriteHeader w StatusMethodNotAllowed)
        else
          let acReqHeaders :=
            Header_Get (ReqHeader r) AccessControlRequestHeaders in
          match areReqHeadersAllowed c acReqHeaders with
          | None => Panicked w
          | Some false => Returned (WriteHeader w StatusForbidden)
          | Some true =>
              let w := add_header w AccessControlAllowMethods
                         (allowedMethodsString c) in
              let w := if allowAllHeaders c
                       then add_header w AccessControlAllowHeaders acReqHeaders
                       else add_header w AccessControlAllowHeaders
                              (allowedHeadersString c) in
              let w := if allowCredentials c
                       then add_header w AccessControlAllowCredentials "true"
                       else w in
              let w := if bool_decide (maxAge c ≠ "0")
                       then add_header w AccessControlControlMaxAge (maxAge c)
                       else w in
              (* forward request if required *)
              if forwardRequest c then next w r
              else Returned (WriteHeader w StatusOK)
          end.

(** [Filter(config)]: [c := initialize(config)], then the middleware. *)
Definition Filter (config : Config) : option (Handler → Handler) :=
  c ← initialize config; Some (filter c).

(** ** The handler and the requests of the test suite *)

(** [testHandler] *)
Definition testHandler : Handler := λ w r,
  if bool_decide (Method r = "GET") then Returned (Write w (bytes "test"))
  else Returned (WriteHeader w StatusMethodNotAllowed).

(** [http.NewRequest(method, url, nil)] followed by [req.Header.Add] for
    each pair of [hs]. *)
Definition NewRequest (method : string) (hs : list (string * string)) : Request :=
  {| Method := method;
     ReqHeader := foldl (λ h kv, Header_Add h kv.1 kv.2) ∅ hs;
     RemoteAddr := "" |}.

Definition Config_default : Config :=
  {| AllowedOrigins := ""; AllowedMethods := ""; AllowedHeaders := "";
     ExposedHeaders := ""; MaxAge := 0; AllowCredentials := false;
     ForwardRequest := false |}.

(** [f(testHandler).ServeHTTP(res, req)] on a fresh recorder. *)
Definition serve (config : Config) (r : Request) : option outcome :=
  f ← Filter config; Some (f testHandler NewRecorder r).


(** [strings.Join(ss, ",")] *)
Fixpoint strings_Join (ss : list string) : string :=
  match ss with
  | [] => ""
  | [x] => x
  | x :: rest => x +:+ "," +:+ strings_Join rest
  end.

(** The zero value of the struct [cors]. *)
Definition cors_zero : cors :=
  {| allowedRegexOrigins := []; allowedStaticOrigins := [];
     allowedSuffixOrigins := []; allowedMethods := ∅; allowedHeaders := ∅;
     allowedHeadersString := ""; allowedMethodsString := ""; hostName := "";
     maxAge := ""; exposedHeaders := ""; exposeHeader := false;
     allowAllOrigins := false; allowAllHeaders := false;
     allowCredentials := false; forwardRequest := false |}.

(** The filter that [initialize] returns for a configuration on which it
    does not panic. *)
Definition compiled (config : Config) : cors :=
  default cors_zero (initialize config).

(** The recorder after [f(testHandler).ServeHTTP(res, req)]. *)
Definition recorded (config : Config) (r : Request) : ResponseWriter :=
  writer (default (Panicked NewRecorder) (serve config r)).

(** *** Configurations and requests of the scenarios *)

(** [TestHandleActualRequestIgnoreAllowsCredentials]:
    [Config{AllowedOrigins: "*", AllowCredentials: true}] *)
Definition Config_all_origins_credentials : Config :=
  {| AllowedOrigins := "*"; AllowedMethods := ""; AllowedHeaders := "";
     ExposedHeaders := ""; MaxAge := 0; AllowCredentials := true;
     ForwardRequest := false |}.

(** [Config{AllowedOrigins: origins}] *)
Definition Config_origins (origins : string) : Config :=
  {| AllowedOrigins := origins; AllowedMethods := ""; AllowedHeaders := "";
     ExposedHeaders := ""; MaxAge := 0; AllowCredentials := false;
     ForwardRequest := false |}.

(** [TestAllowedMethod], [TestDisallowedMethod]:
    [Config{AllowedOrigins: "http://foobar.com",
            AllowedMethods: "PUT,DELETE,OPTIONS"}] *)
Definition Config_put_delete : Config :=
  {| AllowedOrigins := "http://foobar.com";
     AllowedMethods := "PUT,DELETE,OPTIONS"; AllowedHeaders := "";
     ExposedHeaders := ""; MaxAge := 0; AllowCredentials := false;
     ForwardRequest := false |}.

(** [Config{AllowedMethods: "GET"}]: [OPTIONS] is not allowed. *)
Definition Config_get_only : Config :=
  {| AllowedOrigins := ""; AllowedMethods := "GET"; AllowedHeaders := "";
     ExposedHeaders := ""; MaxAge := 0; AllowCredentials := false;
     ForwardRequest := false |}.

(** [Config{AllowedOrigins: "http://foobar.com", AllowedHeaders: headers}] *)
Definition Config_headers (headers : string) : Config :=
  {| AllowedOrigins := "http://foobar.com"; AllowedMethods := "";
     AllowedHeaders := headers; ExposedHeaders := ""; MaxAge := 0;
     AllowCredentials := false; ForwardRequest := false |}.

Definition get_example : Request :=
  NewRequest "GET" [("Origin", "http://example.com")].

Definition get_lower_case : Request :=
  NewRequest "get" [("Origin", "http://foobar.com")].

Definition preflight_patch : Request :=
  NewRequest "OPTIONS" [("Origin", "http://foobar.com");
                        ("Access-Control-Request-Method", "PATCH")].

Definition preflight_put : Request :=
  NewRequest "OPTIONS" [("Origin", "http://foobar.com");
                        ("Access-Control-Request-Method", "PUT")].

Definition preflight_put_lower_case : Request :=
  NewRequest "OPTIONS" [("Origin", "http://foobar.com");
                        ("Access-Control-Request-Method", "put")].

Definition preflight_get : Request :=
  NewRequest "OPTIONS" [("Origin", "http://example.com");
                        ("Access-Control-Request-Method", "GET")].

Definition preflight_headers (headers : string) : Request :=
  NewRequest "OPTIONS" [("Origin", "http://foobar.com");
                        ("Access-Control-Request-Method", "GET");
                        ("Access-Control-Request-Headers", headers)].

(** ** The vocabulary of the statements *)

(** A handler that never creates the header [key]. *)
Definition keeps_absent (next : Handler) (key : string) : Prop :=
  ∀ w r, header w !! key = None → header (writer (next w r)) !! key = None.

(** The list of methods that [initialize] reads: the configured one, or
    the default when the configured one is empty. *)
Definition methods_of (config : Config) : string :=
  if bool_decide (0 < len (bytes (AllowedMethods config)))
  then AllowedMethods config else DefaultAllowedMethods.

(** The string has a byte in [a..z]. *)
Definition has_lower (s : string) : Prop :=
  ∃ x, x ∈ bytes s ∧ is_lower x = true.

(** The request carries an origin, and the filter allows it. *)
Definition origin_allowed (c : cors) (r : Request) : Prop :=
  Header_Get (ReqHeader r) OriginHeader ≠ "" ∧
  isOriginAllowed c (Header_Get (ReqHeader r) OriginHeader) = true.

(** The preflight request passes every check of [filter]. *)
Definition preflight_accepted (c : cors) (r : Request) : Prop :=
  origin_allowed c r ∧
  Method r = MethodOptions ∧
  isMethodAllowed c MethodOptions = true ∧
  isMethodAllowed c (Header_Get (ReqHeader r) AccessControlRequestMethod)
  = true ∧
  areReqHeadersAllowed c (Header_Get (ReqHeader r) AccessControlRequestHeaders)
  = Some true.

(** The response writer once [filter] has added [Vary: Origin]. *)
Definition after_vary (w : ResponseWriter) : ResponseWriter :=
  add_header w VaryHeader OriginHeader.

(** The response writer when [filter] reads
    [Access-Control-Request-Method]: [Vary: Origin],
    [Access-Control-Allow-Origin] and the second [Vary] are added. *)
Definition at_preflight (w : ResponseWriter) (r : Request) : ResponseWriter :=
  add_header
    (add_header (after_vary w) AccessControlAllowOrigin
       (Header_Get (ReqHeader r) OriginHeader))
    VaryHeader "Access-Control-Request-Method, Access-Control-Request-Headers".

(** The response writer after the headers of an accepted preflight
    request. *)
Definition preflight_response (c : cors) (w : ResponseWriter) (r : Request)
  : ResponseWriter :=
  let w := add_header (at_preflight w r) AccessControlAllowMethods
             (allowedMethodsString c) in
  let w := if allowAllHeaders c
           then add_header w AccessControlAllowHeaders
                  (Header_Get (ReqHeader r) AccessControlRequestHeaders)
           else add_header w AccessControlAllowHeaders (allowedHeadersString c) in
  let w := if allowCredentials c
           then add_header w AccessControlAllowCredentials "true" else w in
  if bool_decide (maxAge c ≠ "0")
  then add_header w AccessControlControlMaxAge (maxAge c) else w.

(** Reference functions for [trimSpace]: the bytes of [s] without the
    spaces in front, and without the spaces at both ends. *)
Fixpoint drop_spaces (s : list ascii) : list ascii :=
  match s with
  | c :: s' => if Ascii.eqb c space then drop_spaces s' else s
  | [] => []
  end.

Definition strip_spaces (s : list ascii) : list ascii :=
  reverse (drop_spaces (reverse (drop_spaces s))).

(** ** [normalizeHeaders] without the shared array *)

(** [normalizeHeaders] with the slices taken by value: [rest] is the part
    of the input that the loop has not read, [cur] is the slice
    [s[start:i]] and [acc] holds the bytes of the slices of [ss]. *)
Fixpoint nh_by_value (rest cur : list ascii) (acc : list (list ascii))
  : option (list (list ascii)) :=
  match rest with
  | [] =>
      if bool_decide (cur ≠ []) then t ← trimSpace cur; Some (acc ++ [t])
      else if bool_decide (acc = []) then t ← trimSpace []; Some [t]
      else Some acc
  | c :: rest' =>
      if is_upper c then nh_by_value rest' (cur ++ [xor_0x20 c]) acc
      else if Ascii.eqb c sep then
        if bool_decide (cur = []) then nh_by_value rest' [] acc
        else t ← trimSpace cur; nh_by_value rest' [] (acc ++ [t])
      else nh_by_value rest' (cur ++ [c]) acc
  end.

(** The tokens of [normalizeHeaders] in one expression: the pieces between
    the commas of the lower-cased input that are not empty, each one
    trimmed, and a single empty token when there is no such piece. *)
Definition normalizeHeaders_tokens (headers : string)
  : option (list (list ascii)) :=
  ts ← mapM trimSpace
         (base.filter (λ t, t ≠ []) (split_on sep (toLowerCase (bytes headers))));
  Some (if bool_decide (ts = []) then [[]] else ts).

(** What is left of [normalizeHeaders] after the loop. *)
Definition nh_finish (st : nh_state) : option (list (list ascii)) :=
  st ← (if bool_decide (nh_start st < len (nh_s st))
        then nh_append_tail st else Some st);
  st ← (if bool_decide (length (nh_ss st) = 0%nat)
        then nh_append_tail st else Some st);
  mapM (nh_view (nh_s st)) (nh_ss st).

(** The slice [w] of the array [s] ends at or before [k] and holds the
    bytes [v]. *)
Definition window_holds (s : list ascii) (k : nat) (w : window)
    (v : list ascii) : Prop :=
  nh_view s w = Some v ∧ w_hi w ≤ Z.of_nat k.

(** The state of the loop of [normalizeHeaders] before the index [i], for
    the input [s0]: the bytes from [i] on are untouched, [cur] is
    [s[start:i]], and the slices of [ss] end at or before [start] and hold
    [acc]. *)
Definition nh_inv (s0 : list ascii) (i : nat) (st : nh_state)
    (cur : list ascii) (acc : list (list ascii)) : Prop :=
  length (nh_s st) = length s0 ∧
  drop i (nh_s st) = drop i s0 ∧
  ∃ k : nat,
    nh_start st = Z.of_nat k ∧ (k ≤ i)%nat ∧
    cur = take (i - k) (drop k (nh_s st)) ∧
    Forall2 (window_holds (nh_s st) k) (nh_ss st) acc.

(** The first piece of a split with [cur] in front of it. *)
Definition nh_pieces (cur rest : list ascii) : list (list ascii) :=
  match split_on sep (toLowerCase rest) with
  | p :: ps => (cur ++ p) :: ps
  | [] => [cur]
  end.

(** The bytes of [strings.Join(ss, ",")]. *)
Fixpoint join_bytes (ss : list (list ascii)) : list ascii :=
  match ss with
  | [] => []
  | [x] => x
  | x :: rest => x ++ sep :: join_bytes rest
  end.

(** ** The revision of [cors.go] with regular expressions only

    The repository holds a second revision of [cors.go].  It keeps every
    configured origin as a regular expression, normalizes header lists
    with [strings.ToUpper], [strings.Split] and [strings.TrimSpace], and
    brings the requested method of a preflight request to upper case.  Its
    constants and its [Config] are the ones above. *)
Module RegexVariant.

Record cors := {
  allowedOrigins : list Regexp;
  allowedMethods : gmap string bool;
  allowedHeaders : gmap string bool;
  hostName : string;
  maxAge : string;
  exposedHeaders : string;
  exposeHeader : bool;
  allowAllOrigins : bool;
  allowAllHeaders : bool;
  allowCredentials : bool;
  forwardRequest : bool;
  allowedHeadersString : string;
  allowedMethodsString : string
}.

(** [strings.ToUpper] on ASCII. *)
Definition strings_ToUpper (s : string) : string :=
  str (bytes_ToUpper (bytes s)).

(** [allowed]: [for _, a := range allowed { m[a] = true }] *)
Definition allowed (l : list string) : gmap string bool :=
  foldl (λ m a, <[a := true]> m) ∅ l.

(** [normalizeHeaders]:
    [hl = strings.Split(strings.ToUpper(headers), ",")], then
    [hl[i] = strings.TrimSpace(v)] for every element. *)
Definition normalizeHeaders (headers : string) : list string :=
  strings_TrimSpace <$> strings_Split (strings_ToUpper headers) sep.

(** The body of [for _, o := range origins]. *)
Definition origin_body (acc : list Regexp) (o : string) : option (list Regexp) :=
  let p := regexp_QuoteMeta (strings_TrimSpace o) in
  let p := strings_Replace p "\*" ".*" in
  let p := strings_Replace p "\?" "." in
  r ← regexp_MustCompile p;
  Some (acc ++ [r]).

Fixpoint origin_range (origins : list string) (acc : list Regexp)
  : option (list Regexp) :=
  match origins with
  | [] => Some acc
  | o :: rest => acc' ← origin_body acc o; origin_range rest acc'
  end.

(** [initialize] *)
Definition initialize (config : Config) : option cors :=
  let listed := bool_decide (0 < len (bytes (AllowedOrigins config)))
                && bool_decide (AllowedOrigins config ≠ "*") in
  ol ← (if listed
        then origin_range (strings_Split (AllowedOrigins config) sep) []
        else Some []);
  let methods :=
    if bool_decide (0 < len (bytes (AllowedMethods config)))
    then (allowed (strings_Split (strings_ToUpper (AllowedMethods config)) sep),
          AllowedMethods config)
    else (allowed (strings_Split DefaultAllowedMethods sep),
          DefaultAllowedMethods) in
  let hs :=
    if bool_decide (0 < len (bytes (AllowedHeaders config))) then
      if bool_decide (AllowedHeaders config = strings_TrimSpace "*")
      then (true, allowed (normalizeHeaders DefaultAllowedHeaders), "*")
      else (false, allowed (normalizeHeaders (AllowedHeaders config)),
            AllowedHeaders config)
    else (false, allowed (normalizeHeaders DefaultAllowedHeaders),
          DefaultAllowedHeaders) in
  Some {|
    allowedOrigins := ol;
    allowedMethods := methods.1;
    allowedHeaders := hs.1.2;
    hostName := "";
    maxAge := if bool_decide (0 < MaxAge config)
              then strconv_Itoa (MaxAge config) else "1800";
    exposedHeaders := if bool_decide (0 < len (bytes (ExposedHeaders config)))
                      then ExposedHeaders config else "";
    exposeHeader := bool_decide (0 < len (bytes (ExposedHeaders config)));
    allowAllOrigins := negb listed;
    allowAllHeaders := hs.1.1;
    (* c.allowCredentials = config.AllowCredentials *)
    allowCredentials := AllowCredentials config;
    forwardRequest := ForwardRequest config;
    allowedHeadersString := hs.2;
    allowedMethodsString := methods.2
  |}.

(** [isOriginAllowed] *)
Definition isOriginAllowed (c : cors) (origin : string) : bool :=
  if allowAllOrigins c then true
  else existsb (λ o, MatchString o origin) (allowedOrigins c).

(** [isMethodAllowed]: [v, ok := c.allowedMethods[method]] *)
Definition isMethodAllowed (c : cors) (method : string) : bool :=
  match allowedMethods c !! method with
  | None => false
  | Some v => v
  end.

(** [areReqHeadersAllowed]: [_, ok := c.allowedHeaders[header]] *)
Definition areReqHeadersAllowed (c : cors) (reqHeaders : string) : bool :=
  if allowAllHeaders c || bool_decide (len (bytes reqHeaders) = 0) then true
  else forallb (λ header, bool_decide (is_Some (allowedHeaders c !! header)))
         (normalizeHeaders reqHeaders).

(** The closure [filter] of [Filter]. *)
Definition filter (c : cors) (next : Handler) : Handler := λ w r,
  let origin := Header_Get (ReqHeader r) OriginHeader in
  if bool_decide (origin = "") then next w r
  else
    let w := add_header w VaryHeader OriginHeader in
    if negb (isOriginAllowed c origin) then
      Returned (WriteHeader w StatusForbidden)
    else if negb (isMethodAllowed c (Method r)) then
      Returned (WriteHeader w StatusMethodNotAllowed)
    else
      let w := add_header w AccessControlAllowOrigin origin in
      if bool_decide (Method r = MethodOptions) then
        let w := add_header w VaryHeader
                   (AccessControlRequestMethod +:+ ", " +:+
                    AccessControlRequestHeaders) in
        let acReqMethod :=
          strings_ToUpper (Header_Get (ReqHeader r) AccessControlRequestMethod) in
        if negb (isMethodAllowed c acReqMethod) then
          Returned (WriteHeader w StatusMethodNotAllowed)
        else
          let acReqHeaders :=
            Header_Get (ReqHeader r) AccessControlRequestHeaders in
          if negb (areReqHeadersAllowed c acReqHeaders) then
            Returned (WriteHeader w StatusForbidden)
          else
            let w := add_header w AccessControlAllowMethods
                       (allowedMethodsString c) in
            let w := if negb (allowAllHeaders c)
                     then add_header w AccessControlAllowHeaders
                            (allowedHeadersString c)
                     else add_header w AccessControlAllowHeaders acReqHeaders in
            let w := if allowCredentials c
                     then add_header w AccessControlAllowCredentials "true"
                     else w in
            let w := if bool_decide (maxAge c ≠ "0")
                     then add_header w AccessControlControlMaxAge (maxAge c)
                     else w in
            if forwardRequest c then next w r
            else Returned (WriteHeader w StatusOK)
      else
        let w := if exposeHeader c
                 then add_header w AccessControlExposeHeaders (exposedHeaders c)
                 else w in
        let w := if allowCredentials c
                 then add_header w AccessControlAllowCredentials "true"
                 else w in
        next w r.

(** [Filter(config)(testHandler).ServeHTTP(res, req)] on a fresh recorder,
    and the recorder afterwards. *)
Definition serve (config : Config) (r : Request) : option outcome :=
  c ← initialize config; Some (filter c testHandler NewRecorder r).

Definition recorded (config : Config) (r : Request) : ResponseWriter :=
  writer (default (Panicked NewRecorder) (serve config r)).

Definition allows (config : Config) (origin : string) : option bool :=
  c ← initialize config; Some (isOriginAllowed c origin).

End RegexVariant.

(** * Properties *)

(** Closed goals are decided by evaluation. *)
Ltac run := vm_compute; reflexivity.

(** ** Conversions between strings and bytes *)

Lemma str_bytes s : str (bytes s) = s.
Proof. apply string_of_list_ascii_of_string. Qed.

Lemma bytes_str b : bytes (str b) = b.
Proof. apply list_ascii_of_string_of_list_ascii. Qed.

Lemma len_bytes_pos s : 0 < len (bytes s) ↔ s ≠ "".
Proof.
  unfold len. destruct s; simpl; split; intros H; try done; lia.
Qed.

(** ** The tables of the test suite *)

(** The rows of [TestToLower]. *)
Example toLowerCase_table :
  str (toLowerCase (bytes "FOOBAR")) = "foobar" ∧
  str (toLowerCase (bytes "FoObaR")) = "foobar" ∧
  str (toLowerCase (bytes " FoO BaR ")) = " foo bar " ∧
  str (toLowerCase (bytes "FoO@@Bar")) = "foo@@bar".
Proof. by vm_compute. Qed.

(** The rows of [TestTrim], but the one of seven spaces. *)
Example trimSpace_table :
  trimSpace (bytes "") = Some (bytes "") ∧
  trimSpace (bytes " foo bar") = Some (bytes "foo bar") ∧
  trimSpace (bytes " foo bar ") = Some (bytes "foo bar") ∧
  trimSpace (bytes "          foo bar") = Some (bytes "foo bar") ∧
  trimSpace (bytes "foo bar         ") = Some (bytes "foo bar") ∧
  trimSpace (bytes "    foo bar     ") = Some (bytes "foo bar").
Proof. by vm_compute. Qed.

(** The row of [TestTrim] that expects the empty slice. *)
Example trimSpace_seven_spaces : trimSpace (bytes "       ") = None.
Proof. reflexivity. Qed.

(** The rows of [TestNormalizeHeader] that the function reproduces. *)
Example normalizeHeaders_table :
  normalizeHeaders_strings "FOO" = Some ["foo"] ∧
  normalizeHeaders_strings ",FOO" = Some ["foo"] ∧
  normalizeHeaders_strings "FoO,Bar" = Some ["foo"; "bar"] ∧
  normalizeHeaders_strings "FoO,BaR," = Some ["foo"; "bar"] ∧
  normalizeHeaders_strings ",FoO,,,BaR," = Some ["foo"; "bar"] ∧
  normalizeHeaders_strings ",,FoO,,,BaR," = Some ["foo"; "bar"] ∧
  normalizeHeaders_strings "fOo" = Some ["foo"] ∧
  normalizeHeaders_strings " Fo O " = Some ["fo o"].
Proof. by vm_compute. Qed.

(** The rows of [TestNormalizeHeader] with a token of spaces: the table
    expects [foo, bar], [foo, bar], [foo, bar, foo;bar] and no token. *)
Example normalizeHeaders_table_spaces :
  normalizeHeaders_strings "FoO,Bar, " = Some ["foo"; "bar"; ""] ∧
  normalizeHeaders_strings "  ,,FoO,,,BaR,  " = None ∧
  normalizeHeaders_strings "FoO, Bar, foo;Bar, "
  = Some ["foo"; "bar"; "foo;bar"; ""] ∧
  normalizeHeaders_strings " , " = Some [""; ""].
Proof. by vm_compute. Qed.

(** ** [trimSpace] *)

Lemma eqb_space c : Ascii.eqb c space = bool_decide (c = space).
Proof.
  destruct (Ascii.eqb_spec c space); by case_bool_decide.
Qed.

(** The first loop of [trimSpace] counts the spaces in front. *)
Lemma drop_spaces_split s :
  ∃ a, s = replicate a space ++ drop_spaces s ∧
       ∀ z, trimSpace_start s z = z + Z.of_nat a.
Proof.
  induction s as [|c s (a & IH & Hstart)]; cbn [drop_spaces trimSpace_start].
  - exists 0%nat. split; [done|]. intros z. lia.
  - rewrite eqb_space. case_bool_decide as Hc.
    + subst c. exists (S a). split; [cbn [replicate app]; by f_equal|].
      intros z. rewrite Hstart. lia.
    + exists 0%nat. split; [done|]. intros z. lia.
Qed.

Lemma drop_spaces_head s x t : drop_spaces s = x :: t → x ≠ space.
Proof.
  induction s as [|c s IH]; cbn [drop_spaces]; [done|].
  rewrite eqb_space. case_bool_decide as Hc; [done|]. by intros [= <- _].
Qed.

Lemma drop_spaces_spaces n : drop_spaces (replicate n space) = [].
Proof.
  induction n; [done|]. cbn [replicate drop_spaces]. by rewrite eqb_space.
Qed.

Lemma drop_spaces_app_spaces n s :
  drop_spaces (replicate n space ++ s) = drop_spaces s.
Proof.
  induction n; [done|]. cbn [replicate app drop_spaces]. by rewrite eqb_space.
Qed.

Lemma drop_spaces_id x t : x ≠ space → drop_spaces (x :: t) = x :: t.
Proof.
  intros Hx. cbn [drop_spaces]. rewrite eqb_space.
  by rewrite bool_decide_eq_false_2.
Qed.

(** The second loop of [trimSpace]: when the bytes above the index [p]
    are all spaces, the loop stops at [p] if [p] is 0 or [s[p]] is not a
    space. *)
Lemma trimSpace_end_stops s p b :
  (∀ i, (p < i ≤ p + b)%nat → s !! i = Some space) →
  (p = 0%nat ∨ ∃ y, s !! p = Some y ∧ y ≠ space) →
  trimSpace_end s (p + b) = Some (Z.of_nat p).
Proof.
  intros Hsp Hp. induction b as [|b IH].
  - rewrite Nat.add_0_r. destruct Hp as [->|(y & Hy & Hne)]; [done|].
    destruct p as [|p]; [done|]. cbn [trimSpace_end]. unfold index.
    rewrite bool_decide_eq_true_2 by lia. rewrite Nat2Z.id, Hy.
    cbn [mbind option_bind]. rewrite eqb_space.
    by rewrite bool_decide_eq_false_2.
  - replace (p + S b)%nat with (S (p + b)) by lia. cbn [trimSpace_end].
    unfold index. rewrite bool_decide_eq_true_2 by lia.
    rewrite Nat2Z.id, Hsp by lia. cbn [mbind option_bind]. rewrite eqb_space.
    rewrite bool_decide_eq_true_2 by done.
    apply IH. intros i Hi. apply Hsp. lia.
Qed.

Lemma trimSpace_bounds_spec s a p b :
  length s = (p + 1 + b)%nat →
  (∀ z, trimSpace_start s z = z + Z.of_nat a) →
  (∀ i, (p < i ≤ p + b)%nat → s !! i = Some space) →
  (p = 0%nat ∨ ∃ y, s !! p = Some y ∧ y ≠ space) →
  trimSpace_bounds s = Some (Z.of_nat a, Z.of_nat p + 1).
Proof.
  intros Hlen Hstart Hsp Hp. unfold trimSpace_bounds, len.
  rewrite Hstart, Hlen. case_bool_decide as Hpos.
  - replace (Z.to_nat (Z.of_nat (p + 1 + b) - 1)) with (p + b)%nat by lia.
    rewrite trimSpace_end_stops by done.
    cbn [mbind option_bind]. f_equal; f_equal; lia.
  - cbn [mbind option_bind]. f_equal; f_equal; lia.
Qed.

(** On spaces only, [trimSpace] returns the empty slice for at most one
    space and panics from two spaces on. *)
Lemma trimSpace_spaces n :
  trimSpace (replicate n space)
  = if bool_decide (2 ≤ n)%nat then None else Some [].
Proof.
  destruct n as [|[|n]]; [reflexivity..|].
  rewrite bool_decide_eq_true_2 by lia. unfold trimSpace.
  rewrite (trimSpace_bounds_spec _ (S (S n)) 0 (S n)).
  - cbn [mbind option_bind fst snd]. unfold slice.
    rewrite bool_decide_eq_false_2; [done|]. lia.
  - by rewrite length_replicate.
  - destruct (drop_spaces_split (replicate (S (S n)) space)) as (a & Ha & Hs).
    rewrite drop_spaces_spaces, app_nil_r in Ha.
    apply (f_equal length) in Ha. rewrite !length_replicate in Ha.
    by subst a.
  - intros i Hi. apply lookup_replicate_2. lia.
  - by left.
Qed.

(** C6: on every input of two or more bytes that are all spaces,
    [trimSpace] panics: the first loop leaves [start = len(s)], the second
    one stops at [end = 0], and in [s[start : end+1]] the low index is
    above the high one.  ([TestTrim] expects the empty slice for seven
    spaces.) *)
Theorem trimSpace_panics_on_spaces n :
  trimSpace (replicate (S (S n)) space) = None.
Proof.
  rewrite trimSpace_spaces. by rewrite bool_decide_eq_true_2 by lia.
Qed.

(** On every input with a byte that is not a space, [trimSpace] returns
    the input without the spaces at both ends. *)
Lemma trimSpace_strips s :
  (∃ x, x ∈ s ∧ x ≠ space) → trimSpace s = Some (strip_spaces s).
Proof.
  intros (x & Hx & Hne).
  destruct (drop_spaces_split s) as (a & Ha & Hstart).
  destruct (drop_spaces_split (reverse s)) as (b & Hb & _).
  apply (f_equal reverse) in Hb.
  rewrite reverse_involutive, reverse_app, reverse_replicate in Hb.
  set (core := reverse (drop_spaces (reverse s))) in *.
  (* the core ends with a byte that is not a space *)
  assert (∃ core' y, core = core' ++ [y] ∧ y ≠ space)
    as (core' & y & Hcore & Hy).
  { destruct (drop_spaces (reverse s)) as [|y t] eqn:Hd.
    - exfalso. subst core. rewrite reverse_nil, app_nil_l in Hb. subst s.
      apply elem_of_replicate in Hx as [-> _]. done.
    - exists (reverse t), y. split; [subst core; by rewrite reverse_cons|].
      by eapply drop_spaces_head. }
  set (p := length core').
  assert (s !! p = Some y) as Hsp.
  { rewrite Hb, Hcore, <- app_assoc. cbn [app]. by apply list_lookup_middle. }
  assert (length s = (p + 1 + b)%nat) as Hlen.
  { rewrite Hb at 1. rewrite Hcore, !length_app, length_replicate. cbn. lia. }
  assert (a ≤ p)%nat as Hap.
  { destruct (decide (a ≤ p)%nat) as [|Hgt]; [done|]. exfalso.
    rewrite Ha in Hsp. rewrite lookup_app_l in Hsp
      by (rewrite length_replicate; lia).
    apply lookup_replicate in Hsp as [-> _]. done. }
  unfold trimSpace.
  rewrite (trimSpace_bounds_spec s a p b Hlen Hstart).
  2:{ intros i Hi. rewrite Hb, lookup_app_r
        by (rewrite Hcore, length_app; cbn; lia).
      apply lookup_replicate_2. rewrite Hcore, length_app. cbn. lia. }
  2:{ right. by exists y. }
  cbn [mbind option_bind fst snd]. unfold slice, len.
  rewrite bool_decide_eq_true_2 by lia. f_equal.
  replace (Z.to_nat (Z.of_nat p + 1 - Z.of_nat a)) with (S p - a)%nat by lia.
  rewrite Nat2Z.id.
  (* both sides are [drop a core] *)
  assert (drop a s = drop a core ++ replicate b space) as Hdrop.
  { rewrite Hb at 1. rewrite drop_app_le; [done|].
    rewrite Hcore, length_app. cbn. lia. }
  assert (length (drop a core) = (S p - a)%nat) as Hdl.
  { rewrite length_drop, Hcore, length_app. cbn. lia. }
  rewrite Hdrop, <- Hdl, take_app_length.
  unfold strip_spaces.
  assert (drop_spaces s = drop a s) as ->.
  { rewrite Ha at 2. rewrite drop_app_length'; [done|].
    by rewrite length_replicate. }
  rewrite Hdrop, reverse_app, reverse_replicate, drop_spaces_app_spaces.
  assert (drop a core = drop a core' ++ [y]) as ->.
  { rewrite Hcore, drop_app_le; [done|]. done. }
  rewrite reverse_app. cbn [reverse app]. change (reverse [y]) with [y].
  cbn [app]. rewrite drop_spaces_id by done.
  by rewrite reverse_cons, reverse_involutive.
Qed.

(** [trimSpace] on every input: it panics on two or more spaces and on
    nothing else. *)
Lemma trimSpace_spec s :
  trimSpace s
  = if bool_decide ((2 ≤ length s)%nat ∧ Forall (λ c, c = space) s)
    then None else Some (strip_spaces s).
Proof.
  destruct (decide (Forall (λ c, c = space) s)) as [Hall|Hsome].
  - assert (s = replicate (length s) space) as Hs.
    { clear -Hall. induction Hall as [|c s -> _ IH]; [done|].
      cbn [length replicate]. by f_equal. }
    rewrite Hs at 1. rewrite trimSpace_spaces.
    destruct (decide (2 ≤ length s)%nat) as [Hlen|Hlen].
    + rewrite !bool_decide_eq_true_2; [done | done | lia].
    + rewrite !bool_decide_eq_false_2; [|by intros [? _] | lia].
      rewrite Hs. by destruct (length s) as [|[|n]]; [..|lia].
  - rewrite bool_decide_eq_false_2 by (intros [_ ?]; done).
    apply trimSpace_strips.
    apply not_Forall_Exists in Hsome; [|apply _].
    apply Exists_exists in Hsome as (x & Hx & Hne). by exists x.
Qed.

(** ** Splitting and letter case *)

Lemma split_on_elem c0 s t x : t ∈ split_on c0 s → x ∈ t → x ∈ s.
Proof.
  revert t. induction s as [|c s IH]; intros t Ht Hx; cbn [split_on] in Ht.
  - apply list_elem_of_singleton in Ht. by subst t.
  - destruct (Ascii.eqb c c0).
    + apply elem_of_cons in Ht as [->|Ht]; [by apply elem_of_nil in Hx|].
      right. by eapply IH.
    + destruct (split_on c0 s) as [|t0 ts] eqn:Hs.
      * apply list_elem_of_singleton in Ht. subst t.
        apply list_elem_of_singleton in Hx. subst x. by left.
      * apply elem_of_cons in Ht as [->|Ht].
        -- apply elem_of_cons in Hx as [->|Hx]; [by left|].
           right. apply (IH t0); [by left | done].
        -- right. apply (IH t); [by right | done].
Qed.

Lemma to_upper_not_lower c :
  is_lower (if is_lower c then xor_0x20 c else c) = false.
Proof. by destruct c as [[] [] [] [] [] [] [] []]. Qed.

Lemma bytes_ToUpper_not_lower s x : x ∈ bytes_ToUpper s → is_lower x = false.
Proof.
  unfold bytes_ToUpper. intros (c & -> & _)%list_elem_of_fmap.
  apply to_upper_not_lower.
Qed.

(** ** [normalizeHeaders] without the shared array *)

Lemma slice_Some s lo hi x :
  slice s lo hi = Some x ↔
  0 ≤ lo ∧ lo ≤ hi ∧ hi ≤ len s ∧
  x = take (Z.to_nat (hi - lo)) (drop (Z.to_nat lo) s).
Proof.
  unfold slice. case_bool_decide as H.
  - destruct H as (? & ? & ?).
    split; [intros [= <-]; by split_and! | intros (_ & _ & _ & ->); done].
  - split; [done | intros (? & ? & ? & _); by destruct H].
Qed.

Lemma slice_nat s (k j : nat) :
  (k ≤ j ≤ length s)%nat →
  slice s (Z.of_nat k) (Z.of_nat j) = Some (take (j - k) (drop k s)).
Proof.
  intros H. apply slice_Some. unfold len. split_and!; try lia.
  rewrite Nat2Z.id. f_equal. lia.
Qed.

(** A slice of the slice [s[k:j]] is a slice of [s]. *)
Lemma slice_of_slice s (k j : nat) a b t :
  (k ≤ j ≤ length s)%nat →
  slice (take (j - k) (drop k s)) a b = Some t →
  slice s (Z.of_nat k + a) (Z.of_nat k + b) = Some t ∧
  0 ≤ Z.of_nat k + a ∧ Z.of_nat k + b ≤ Z.of_nat j.
Proof.
  intros Hkj (Ha & Hab & Hb & ->)%slice_Some. unfold len in Hb.
  rewrite length_take, length_drop in Hb.
  split; [|lia]. apply slice_Some. unfold len. split_and!; try lia.
  replace (Z.to_nat (Z.of_nat k + b - (Z.of_nat k + a)))
    with (Z.to_nat (b - a)) by lia.
  replace (Z.to_nat (Z.of_nat k + a)) with (k + Z.to_nat a)%nat by lia.
  rewrite <- drop_drop.
  replace (j - k)%nat with (Z.to_nat a + (j - k - Z.to_nat a))%nat at 1 by lia.
  rewrite <- take_drop_commute, take_take. f_equal. lia.
Qed.

(** A write at [i] does not change a slice that ends at or before [i]. *)
Lemma slice_insert s i x lo hi :
  hi ≤ Z.of_nat i → slice (<[i:=x]> s) lo hi = slice s lo hi.
Proof.
  intros Hhi. unfold slice, len. rewrite length_insert.
  case_bool_decide as H; [|done]. f_equal.
  rewrite drop_insert_ge by lia. rewrite take_insert_ge by lia. done.
Qed.

Lemma take_drop_snoc (s : list ascii) (k i : nat) c :
  s !! i = Some c → (k ≤ i)%nat →
  take (S i - k) (drop k s) = take (i - k) (drop k s) ++ [c].
Proof.
  intros Hc Hk. replace (S i - k)%nat with (S (i - k)) by lia.
  apply take_S_r. rewrite lookup_drop. by replace (k + (i - k))%nat with i by lia.
Qed.

Lemma trimSpace_window_spec s (k j : nat) :
  (k ≤ j ≤ length s)%nat →
  match trimSpace (take (j - k) (drop k s)) with
  | Some t =>
      ∃ w, trimSpace_window s (Z.of_nat k) (Z.of_nat j) = Some w ∧
           nh_view s w = Some t ∧ 0 ≤ w_lo w ∧ w_hi w ≤ Z.of_nat j
  | None => trimSpace_window s (Z.of_nat k) (Z.of_nat j) = None
  end.
Proof.
  intros Hkj. unfold trimSpace_window, trimSpace.
  rewrite (slice_nat s k j Hkj). cbn [mbind option_bind].
  destruct (trimSpace_bounds _) as [[a b]|]; cbn [mbind option_bind fst snd];
    [|done].
  destruct (slice _ a b) as [t|] eqn:Ht; cbn [mbind option_bind]; [|done].
  destruct (slice_of_slice s k j a b t Hkj Ht) as (Hv & Hlo & Hhi).
  eexists. split; [reflexivity|]. by split_and!.
Qed.

Lemma nh_inv_lookup s0 i st cur acc c rest :
  drop i s0 = c :: rest → nh_inv s0 i st cur acc →
  nh_s st !! i = Some c ∧ (i < length (nh_s st))%nat ∧
  drop (S i) (nh_s st) = drop (S i) s0.
Proof.
  intros Hdrop (Hlen & Hrest & _).
  assert (nh_s st !! i = Some c) as Hc.
  { replace i with (i + 0)%nat by lia. rewrite <- lookup_drop, Hrest, Hdrop.
    done. }
  split; [done|]. split; [by eapply lookup_lt_Some|].
  replace (S i) with (i + 1)%nat by lia. by rewrite <- !drop_drop, Hrest.
Qed.

(** One round of the loop, by cases as in [nh_by_value]. *)
Lemma nh_body_step s0 i st cur acc c rest :
  drop i s0 = c :: rest → nh_inv s0 i st cur acc →
  if is_upper c then
    ∃ st', nh_body st i = Some st' ∧
           nh_inv s0 (S i) st' (cur ++ [xor_0x20 c]) acc
  else if Ascii.eqb c sep then
    if bool_decide (cur = []) then
      ∃ st', nh_body st i = Some st' ∧ nh_inv s0 (S i) st' [] acc
    else
      match trimSpace cur with
      | Some t => ∃ st', nh_body st i = Some st' ∧
                         nh_inv s0 (S i) st' [] (acc ++ [t])
      | None => nh_body st i = None
      end
  else
    ∃ st', nh_body st i = Some st' ∧ nh_inv s0 (S i) st' (cur ++ [c]) acc.
Proof.
  intros Hdrop Hinv.
  destruct (nh_inv_lookup _ _ _ _ _ _ _ Hdrop Hinv) as (Hc & Hi & Hrest').
  destruct Hinv as (Hlen & Hrest & k & Hstart & Hk & Hcur & Hacc).
  unfold nh_body. rewrite Hc. cbn [mbind option_bind].
  destruct (is_upper c) eqn:Hup.
  { (* s[i] = c ^ 0x20 *)
    eexists. split; [reflexivity|]. unfold nh_inv. cbn [nh_s nh_start nh_ss].
    split_and!.
    - by rewrite length_insert.
    - by rewrite drop_insert_lt by lia.
    - exists k. split_and!; [done | lia | |].
      + rewrite (take_drop_snoc _ k i (xor_0x20 c));
          [|by apply list_lookup_insert_eq | done].
        rewrite Hcur. f_equal.
        rewrite drop_insert_ge by lia. by rewrite take_insert_ge by lia.
      + eapply Forall2_impl; [exact Hacc|]. intros w v [Hv Hw].
        split; [|done]. unfold nh_view in *. rewrite slice_insert by lia.
        done. }
  unfold index. rewrite (bool_decide_eq_true_2 (0 ≤ Z.of_nat i)) by lia.
  rewrite Nat2Z.id, Hc. cbn [mbind option_bind].
  destruct (Ascii.eqb c sep) eqn:Hsep; cbn [andb].
  - (* a separator *)
    assert (length cur = (i - k)%nat) as Hcl.
    { rewrite Hcur, length_take, length_drop. lia. }
    rewrite Hstart. destruct (decide (k = i)) as [->|Hki].
    + (* start == i *)
      rewrite (bool_decide_eq_true_2 (Z.of_nat i = Z.of_nat i)) by done.
      rewrite bool_decide_eq_true_2
        by (apply length_zero_iff_nil; rewrite Hcl; lia).
      eexists. split; [reflexivity|]. unfold nh_inv. cbn [nh_s nh_start nh_ss].
      split_and!; [done | done |].
      exists (S i). split_and!; [lia | lia | by rewrite Nat.sub_diag |].
      eapply Forall2_impl; [exact Hacc|]. intros w v [Hv Hw]. split; [done|lia].
    + (* ss = append(ss, trimSpace(s[start:i])) *)
      rewrite (bool_decide_eq_false_2 (Z.of_nat k = Z.of_nat i)) by lia.
      rewrite bool_decide_eq_false_2
        by (intros Hnil; apply (f_equal length) in Hnil;
            rewrite Hcl in Hnil; cbn in Hnil; lia).
      pose proof (trimSpace_window_spec (nh_s st) k i ltac:(lia)) as Hw.
      rewrite <- Hcur in Hw.
      destruct (trimSpace cur) as [t|].
      * destruct Hw as (w & -> & Hv & Hlo & Hhi). cbn [mbind option_bind].
        eexists. split; [reflexivity|]. unfold nh_inv.
        cbn [nh_s nh_start nh_ss]. split_and!; [done | done |].
        exists (S i). split_and!; [lia | lia | by rewrite Nat.sub_diag |].
        apply Forall2_app.
        -- eapply Forall2_impl; [exact Hacc|]. intros w' v [Hv' Hw'].
           split; [done|lia].
        -- repeat constructor; [done | lia].
      * by rewrite Hw.
  - (* any other byte *)
    eexists. split; [reflexivity|]. unfold nh_inv. split_and!; [done | done |].
    exists k. split_and!; [done | lia | | done].
    rewrite (take_drop_snoc _ k i c) by done. by rewrite Hcur.
Qed.

(** After the loop. *)
Lemma nh_finish_by_value s0 st cur acc :
  nh_inv s0 (length s0) st cur acc →
  nh_finish st = nh_by_value [] cur acc.
Proof.
  intros (Hlen & _ & k & Hstart & Hk & Hcur & Hacc).
  assert (length cur = (length s0 - k)%nat) as Hcl.
  { rewrite Hcur, length_take, length_drop. lia. }
  pose proof (Forall2_length _ _ _ Hacc) as Hal.
  assert (mapM (nh_view (nh_s st)) (nh_ss st) = Some acc) as Hviews.
  { apply mapM_Some. eapply Forall2_impl; [exact Hacc|]. by intros w v [? _]. }
  unfold nh_finish, nh_append_tail, len. cbn [nh_by_value].
  rewrite Hstart, Hlen.
  destruct (decide (k = length s0)) as [->|Hne].
  - (* start == len(s) *)
    rewrite (bool_decide_eq_false_2 (_ < _)) by lia.
    rewrite (bool_decide_eq_false_2 (cur ≠ []))
      by (intros H; apply H, length_zero_iff_nil; lia).
    cbn [mbind option_bind].
    destruct (nh_ss st) as [|w ss] eqn:Hss.
    + apply Forall2_nil_inv_l in Hacc as ->.
      rewrite !bool_decide_eq_true_2 by done.
      rewrite Hstart, Hlen.
      pose proof (trimSpace_window_spec (nh_s st) (length s0) (length s0)
                    ltac:(lia)) as Hw.
      rewrite Nat.sub_diag in Hw. cbn [take] in Hw.
      change (trimSpace []) with (Some (@nil ascii)) in *.
      destruct Hw as (w & -> & Hv & _). cbn [mbind option_bind nh_s nh_ss app].
      cbn [mapM]. rewrite Hv. reflexivity.
    + rewrite bool_decide_eq_false_2 by done.
      rewrite bool_decide_eq_false_2
        by (intros ->; cbn in Hal; lia).
      cbn [mbind option_bind]. rewrite Hss. exact Hviews.
  - (* start < len(s) *)
    rewrite (bool_decide_eq_true_2 (_ < _)) by lia.
    rewrite (bool_decide_eq_true_2 (cur ≠ []))
      by (intros H; apply (f_equal length) in H; cbn in H; lia).
    pose proof (trimSpace_window_spec (nh_s st) k (length s0) ltac:(lia)) as Hw.
    rewrite <- Hcur in Hw.
    destruct (trimSpace cur) as [t|].
    + destruct Hw as (w & -> & Hv & _). cbn [mbind option_bind nh_s nh_ss].
      rewrite bool_decide_eq_false_2
        by (rewrite length_app; cbn; lia).
      apply mapM_Some. apply Forall2_app; [|by repeat constructor].
      eapply Forall2_impl; [exact Hacc|]. by intros w' v [? _].
    + by rewrite Hw.
Qed.

Lemma nh_range_by_value s0 rest :
  ∀ i st cur acc,
    drop i s0 = rest → (i ≤ length s0)%nat → nh_inv s0 i st cur acc →
    nh_range (seq i (length rest)) st ≫= nh_finish
    = nh_by_value rest cur acc.
Proof.
  induction rest as [|c rest IH]; intros i st cur acc Hdrop Hi Hinv.
  - assert (i = length s0) as ->.
    { apply (f_equal length) in Hdrop. rewrite length_drop in Hdrop.
      cbn in Hdrop. lia. }
    cbn [length seq nh_range mbind option_bind].
    by eapply nh_finish_by_value.
  - pose proof (nh_body_step _ _ _ _ _ _ _ Hdrop Hinv) as Hstep.
    assert (drop (S i) s0 = rest) as Hdrop'.
    { replace (S i) with (i + 1)%nat by lia. by rewrite <- drop_drop, Hdrop. }
    assert (S i ≤ length s0)%nat as Hi'.
    { apply (f_equal length) in Hdrop. rewrite length_drop in Hdrop.
      cbn in Hdrop. lia. }
    cbn [length seq nh_range nh_by_value].
    destruct (is_upper c).
    { destruct Hstep as (st' & -> & Hinv'). cbn [mbind option_bind].
      by apply IH. }
    destruct (Ascii.eqb c sep).
    + destruct (bool_decide (cur = [])).
      * destruct Hstep as (st' & -> & Hinv'). cbn [mbind option_bind].
        by apply IH.
      * destruct (trimSpace cur) as [t|].
        -- destruct Hstep as (st' & -> & Hinv'). cbn [mbind option_bind].
           by apply IH.
        -- by rewrite Hstep.
    + destruct Hstep as (st' & -> & Hinv'). cbn [mbind option_bind].
      by apply IH.
Qed.

(** The slices that [normalizeHeaders] keeps in the array that it goes on
    writing to hold the bytes that the loop by value computes. *)
Lemma normalizeHeaders_by_value headers :
  normalizeHeaders headers = nh_by_value (bytes headers) [] [].
Proof.
  change (normalizeHeaders headers)
    with (nh_range (seq 0 (length (bytes headers)))
            (NhState (bytes headers) 0 []) ≫= nh_finish).
  apply (nh_range_by_value (bytes headers)); [done | lia |].
  unfold nh_inv. cbn [nh_s nh_start nh_ss]. split_and!; [done | done |].
  exists 0%nat. split_and!; [done | lia | done | constructor].
Qed.

(** *** The tokens *)

Lemma xor_0x20_not_sep c : is_upper c = true → xor_0x20 c ≠ sep.
Proof. by destruct c as [[] [] [] [] [] [] [] []]. Qed.

Lemma sep_not_upper : is_upper sep = false.
Proof. reflexivity. Qed.

Lemma nh_pieces_cons_other cur c rest c' :
  c' ≠ sep →
  toLowerCase (c :: rest) = c' :: toLowerCase rest →
  nh_pieces cur (c :: rest) = nh_pieces (cur ++ [c']) rest.
Proof.
  intros Hc' Hlow. unfold nh_pieces. rewrite Hlow. cbn [split_on].
  destruct (Ascii.eqb_spec c' sep) as [|_]; [done|].
  destruct (split_on sep (toLowerCase rest)) as [|p ps]; [done|].
  by rewrite <- app_assoc.
Qed.

Lemma split_on_not_nil c0 s : split_on c0 s ≠ [].
Proof.
  destruct s as [|c s]; cbn [split_on]; [done|].
  destruct (Ascii.eqb c c0); [done|]. by destruct (split_on c0 s).
Qed.

Lemma nh_pieces_cons_sep cur rest :
  nh_pieces cur (sep :: rest) = cur :: nh_pieces [] rest.
Proof.
  unfold nh_pieces. cbn [toLowerCase fmap list_fmap]. rewrite sep_not_upper.
  cbn [split_on]. rewrite Ascii.eqb_refl, app_nil_r.
  pose proof (split_on_not_nil sep (toLowerCase rest)) as Hne.
  fold (toLowerCase rest).
  by destruct (split_on sep (toLowerCase rest)).
Qed.

Lemma nh_by_value_pieces rest :
  ∀ cur acc,
    nh_by_value rest cur acc
    = ts ← mapM trimSpace (base.filter (λ t, t ≠ []) (nh_pieces cur rest));
      Some (if bool_decide (acc ++ ts = []) then [[]] else acc ++ ts).
Proof.
  induction rest as [|c rest IH]; intros cur acc; cbn [nh_by_value].
  - unfold nh_pieces. cbn [toLowerCase fmap list_fmap split_on].
    rewrite app_nil_r. rewrite filter_cons, filter_nil.
    destruct (decide (cur ≠ [])) as [Hne|Hnil].
    + rewrite bool_decide_eq_true_2 by done. cbn [mapM].
      destruct (trimSpace cur) as [t|]; cbn [mbind option_bind mret option_ret];
        [|done].
      rewrite bool_decide_eq_false_2; [done|]. by destruct acc.
    + rewrite bool_decide_eq_false_2 by done.
      cbn [mapM mbind option_bind mret option_ret]. rewrite app_nil_r.
      by case_bool_decide.
  - destruct (is_upper c) eqn:Hup.
    { rewrite IH. rewrite (nh_pieces_cons_other cur c rest (xor_0x20 c)).
      - done.
      - by apply xor_0x20_not_sep.
      - cbn [toLowerCase fmap list_fmap]. by rewrite Hup. }
    destruct (Ascii.eqb_spec c sep) as [->|Hsep].
    + rewrite nh_pieces_cons_sep, filter_cons.
      destruct (decide (cur ≠ [])) as [Hne|Hnil].
      * rewrite bool_decide_eq_false_2 by done. cbn [mapM].
        destruct (trimSpace cur) as [t|];
          cbn [mbind option_bind mret option_ret]; [|done].
        rewrite IH.
        destruct (mapM trimSpace _) as [ts|];
          cbn [mbind option_bind mret option_ret]; [|done].
        by rewrite <- app_assoc.
      * rewrite bool_decide_eq_true_2 by by apply dec_stable.
        apply IH.
    + rewrite IH. rewrite (nh_pieces_cons_other cur c rest c); [done | done |].
      cbn [toLowerCase fmap list_fmap]. by rewrite Hup.
Qed.

(** [normalizeHeaders] returns the tokens of [normalizeHeaders_tokens]. *)
Lemma normalizeHeaders_is_tokens headers :
  normalizeHeaders headers = normalizeHeaders_tokens headers.
Proof.
  rewrite normalizeHeaders_by_value, nh_by_value_pieces.
  unfold normalizeHeaders_tokens, nh_pieces.
  pose proof (split_on_not_nil sep (toLowerCase (bytes headers))) as Hne.
  by destruct (split_on sep (toLowerCase (bytes headers))).
Qed.

(** *** The second normalization *)

Lemma bytes_append s1 s2 : bytes (s1 +:+ s2) = bytes s1 ++ bytes s2.
Proof.
  induction s1 as [|c s1 IH]; [done|].
  change (String c s1 +:+ s2) with (String c (s1 +:+ s2)).
  unfold bytes in *. cbn [list_ascii_of_string app]. by rewrite IH.
Qed.

Lemma bytes_strings_Join ss : bytes (strings_Join (str <$> ss)) = join_bytes ss.
Proof.
  induction ss as [|x [|y ss] IH]; [done | apply bytes_str |].
  change (bytes (str x +:+ "," +:+ strings_Join (str <$> y :: ss))
          = x ++ sep :: join_bytes (y :: ss)).
  by rewrite !bytes_append, bytes_str, IH.
Qed.

Lemma split_on_no_sep c0 s : c0 ∉ s → split_on c0 s = [s].
Proof.
  induction s as [|c s IH]; intros Hs; cbn [split_on]; [done|].
  apply not_elem_of_cons in Hs as [Hc Hs].
  destruct (Ascii.eqb_spec c c0) as [->|_]; [done|]. by rewrite IH.
Qed.

Lemma split_on_app_sep c0 t s :
  c0 ∉ t → split_on c0 (t ++ c0 :: s) = t :: split_on c0 s.
Proof.
  induction t as [|c t IH]; intros Ht; cbn [split_on app].
  - by rewrite Ascii.eqb_refl.
  - apply not_elem_of_cons in Ht as [Hc Ht].
    destruct (Ascii.eqb_spec c c0) as [->|_]; [done|]. by rewrite IH.
Qed.

Lemma split_on_join ss :
  ss ≠ [] → Forall (λ t, sep ∉ t) ss → split_on sep (join_bytes ss) = ss.
Proof.
  induction ss as [|x [|y ss] IH]; intros Hne Hss; [done|..].
  - apply Forall_cons in Hss as [Hx _]. by apply split_on_no_sep.
  - apply Forall_cons in Hss as [Hx Hss].
    change (split_on sep (x ++ sep :: join_bytes (y :: ss)) = x :: y :: ss).
    rewrite split_on_app_sep by done. by rewrite IH.
Qed.

(** A piece of a split has no separator. *)
Lemma split_on_piece c0 s t : t ∈ split_on c0 s → c0 ∉ t.
Proof.
  revert t. induction s as [|c s IH]; intros t Ht; cbn [split_on] in Ht.
  - apply list_elem_of_singleton in Ht as ->. apply not_elem_of_nil.
  - destruct (Ascii.eqb_spec c c0) as [->|Hc].
    + apply elem_of_cons in Ht as [->|Ht]; [apply not_elem_of_nil | by apply IH].
    + destruct (split_on c0 s) as [|t0 ts] eqn:Hs.
      * apply list_elem_of_singleton in Ht as ->.
        apply not_elem_of_cons. split; [done | apply not_elem_of_nil].
      * apply elem_of_cons in Ht as [->|Ht].
        -- apply not_elem_of_cons. split; [done|]. apply IH. by left.
        -- apply IH. by right.
Qed.

Lemma to_lower_not_upper c :
  is_upper (if is_upper c then xor_0x20 c else c) = false.
Proof. by destruct c as [[] [] [] [] [] [] [] []]. Qed.

Lemma toLowerCase_not_upper s x : x ∈ toLowerCase s → is_upper x = false.
Proof.
  unfold toLowerCase. intros (c & -> & _)%list_elem_of_fmap.
  apply to_lower_not_upper.
Qed.

Lemma toLowerCase_id s :
  Forall (λ x, is_upper x = false) s → toLowerCase s = s.
Proof.
  induction 1 as [|x s Hx _ IH]; [done|].
  unfold toLowerCase in *. cbn [fmap list_fmap]. by rewrite Hx, IH.
Qed.

Lemma drop_spaces_elem s x : x ∈ drop_spaces s → x ∈ s.
Proof.
  induction s as [|c s IH]; cbn [drop_spaces]; [done|].
  destruct (Ascii.eqb c space); [|done]. intros H. right. by apply IH.
Qed.

Lemma strip_spaces_elem s x : x ∈ strip_spaces s → x ∈ s.
Proof.
  unfold strip_spaces. rewrite elem_of_reverse. intros H.
  apply drop_spaces_elem in H. rewrite elem_of_reverse in H.
  by apply drop_spaces_elem.
Qed.

Lemma drop_spaces_idemp s : drop_spaces (drop_spaces s) = drop_spaces s.
Proof.
  induction s as [|c s IH]; [done|]. cbn [drop_spaces].
  destruct (Ascii.eqb c space) eqn:Hc; [done|].
  cbn [drop_spaces]. by rewrite Hc.
Qed.

Lemma drop_spaces_snoc s x :
  x ≠ space → drop_spaces (s ++ [x]) = drop_spaces s ++ [x].
Proof.
  intros Hx. induction s as [|c s IH]; cbn [app drop_spaces].
  - rewrite eqb_space. by rewrite bool_decide_eq_false_2.
  - by destruct (Ascii.eqb c space).
Qed.

(** What [strip_spaces] returns has no space at either end. *)
Lemma strip_spaces_trimmed s :
  drop_spaces (strip_spaces s) = strip_spaces s ∧
  drop_spaces (reverse (strip_spaces s)) = reverse (strip_spaces s).
Proof.
  unfold strip_spaces. rewrite reverse_involutive, drop_spaces_idemp.
  split; [|done].
  destruct (drop_spaces s) as [|x d] eqn:Hd; [done|].
  pose proof (drop_spaces_head _ _ _ Hd) as Hx.
  rewrite reverse_cons, drop_spaces_snoc by done.
  rewrite reverse_app. cbn [reverse rev_append app].
  by apply drop_spaces_id.
Qed.

Lemma strip_spaces_idemp s : strip_spaces (strip_spaces s) = strip_spaces s.
Proof.
  destruct (strip_spaces_trimmed s) as [H1 H2].
  unfold strip_spaces at 1. rewrite H1, H2. apply reverse_involutive.
Qed.

(** [trimSpace] gives back what it has returned, when that is not
    empty. *)
Lemma trimSpace_again p t :
  trimSpace p = Some t → t ≠ [] → trimSpace t = Some t.
Proof.
  rewrite trimSpace_spec. case_bool_decide; [done|]. intros [= <-] Hne.
  rewrite trimSpace_spec. rewrite bool_decide_eq_false_2.
  - by rewrite strip_spaces_idemp.
  - intros [_ Hall]. destruct (strip_spaces_trimmed p) as [Hd _].
    destruct (strip_spaces p) as [|x t] eqn:Ht; [done|].
    apply Forall_cons in Hall as [-> _].
    by apply drop_spaces_head in Hd.
Qed.

Lemma trimSpace_elem p t x : trimSpace p = Some t → x ∈ t → x ∈ p.
Proof.
  rewrite trimSpace_spec. case_bool_decide; [done|]. intros [= <-].
  apply strip_spaces_elem.
Qed.

(** When the first normalization returns no empty token, the second one
    returns the same tokens. *)
Lemma normalizeHeaders_twice headers ss :
  normalizeHeaders headers = Some ss →
  Forall (λ t, t ≠ []) ss →
  normalizeHeaders (strings_Join (str <$> ss)) = Some ss.
Proof.
  rewrite !normalizeHeaders_is_tokens. unfold normalizeHeaders_tokens.
  intros Hfirst Hne. rewrite bytes_strings_Join.
  apply bind_Some in Hfirst as (ts & Hts & [= Hss]).
  assert (ts ≠ [] ∧ ss = ts) as [Hts_ne ->].
  { case_bool_decide as Hnil; [|done]. subst ss.
    apply Forall_cons in Hne as [Hne _]. done. }
  apply mapM_Some in Hts.
  (* every token is a trimmed piece of the lower-cased input *)
  assert (Forall (λ t, (sep ∉ t) ∧ Forall (λ x, is_upper x = false) t ∧
                       trimSpace t = Some t) ts) as Hprops.
  { apply Forall_forall. intros t Ht.
    destruct (list_elem_of_lookup_1 _ _ Ht) as [n Hn].
    destruct (Forall2_lookup_r _ _ _ _ _ Hts Hn) as (p & Hp & Htrim).
    apply list_elem_of_lookup_2, list_elem_of_filter in Hp as [_ Hp].
    split_and!.
    - intros Hsep. apply (split_on_piece _ _ _ Hp). by eapply trimSpace_elem.
    - apply Forall_forall. intros x Hx.
      apply (toLowerCase_not_upper (bytes headers)).
      eapply split_on_elem; [exact Hp|]. by eapply trimSpace_elem.
    - eapply trimSpace_again; [exact Htrim|].
      by apply (proj1 (Forall_forall _ _) Hne). }
  assert (toLowerCase (join_bytes ts) = join_bytes ts) as ->.
  { apply toLowerCase_id. clear -Hprops.
    induction ts as [|x [|y ts] IH]; [constructor|..].
    - apply Forall_cons in Hprops as [(_ & Hx & _) _]. done.
    - apply Forall_cons in Hprops as [(_ & Hx & _) Hrest].
      change (Forall (λ x, is_upper x = false)
                (x ++ sep :: join_bytes (y :: ts))).
      apply Forall_app. split; [done|]. constructor; [done|]. by apply IH. }
  rewrite split_on_join; [|done|].
  2:{ eapply Forall_impl; [exact Hprops|]. by intros t (? & _). }
  assert (base.filter (λ t, t ≠ []) ts = ts) as ->.
  { clear -Hne. induction Hne as [|t ts Ht _ IH]; [done|].
    by rewrite filter_cons_True, IH. }
  assert (mapM trimSpace ts = Some ts) as ->.
  { apply mapM_Some. clear -Hprops.
    induction Hprops as [|t ts (_ & _ & Ht) _ IH]; by constructor. }
  cbn [mbind option_bind]. by rewrite bool_decide_eq_false_2.
Qed.

(** ** [normalizeHeaders] on tokens of spaces *)

(** C7: [normalizeHeaders(" , ")] is two empty tokens, their join with a
    comma is [","], and [normalizeHeaders(",")] is one empty token: the
    second normalization differs from the first.  (The table of
    [TestNormalizeHeader] expects no token at all for [" , "].) *)
Theorem normalizeHeaders_not_idempotent :
  normalizeHeaders_strings " , " = Some [""; ""] ∧
  strings_Join [""; ""] = "," ∧
  normalizeHeaders_strings "," = Some [""].
Proof. by vm_compute. Qed.

(** A token of one space between two headers is kept as an empty token
    and is gone after the second normalization. *)
Lemma normalizeHeaders_keeps_space_token :
  normalizeHeaders_strings "a, ,b" = Some ["a"; ""; "b"] ∧
  normalizeHeaders_strings (strings_Join ["a"; ""; "b"]) = Some ["a"; "b"].
Proof. by vm_compute. Qed.

(** A token of two spaces makes [normalizeHeaders] panic in [trimSpace]. *)
Lemma normalizeHeaders_panics : normalizeHeaders "a,  ,b" = None.
Proof. by vm_compute. Qed.

(** Such a token in [Access-Control-Request-Headers] makes the filter
    panic after it has added [Access-Control-Allow-Origin]. *)
Lemma filter_panics_on_spaces_header :
  ∃ w, serve (Config_headers "X-Header-1")
         (preflight_headers "X-Header-1,  ,X-Header-1") = Some (Panicked w) ∧
       header w !! AccessControlAllowOrigin = Some ["http://foobar.com"].
Proof.
  exists (recorded (Config_headers "X-Header-1")
            (preflight_headers "X-Header-1,  ,X-Header-1")).
  split; [run|]. by vm_compute.
Qed.

(** Without a token of spaces the second normalization gives the first
    one back. *)
Lemma normalizeHeaders_twice_test_row :
  normalizeHeaders_strings ",,FoO,,,BaR," = Some ["foo"; "bar"] ∧
  normalizeHeaders_strings (strings_Join ["foo"; "bar"]) = Some ["foo"; "bar"].
Proof. by vm_compute. Qed.

(** ** Response headers *)

Lemma header_WriteHeader w code : header (WriteHeader w code) = header w.
Proof. unfold WriteHeader. by destruct (wroteHeader w). Qed.

Lemma lookup_add_header w key value key' :
  header (add_header w key value) !! key' =
  if decide (key = key') then Some (default [] (header w !! key) ++ [value])
  else header w !! key'.
Proof. unfold add_header, Header_Add. simpl. apply lookup_insert. Qed.

Lemma lookup_add_header_ne w key value key' :
  key ≠ key' → header (add_header w key value) !! key' = header w !! key'.
Proof. intros. rewrite lookup_add_header. by case_decide. Qed.

Lemma lookup_add_header_eq w key value :
  header (add_header w key value) !! key
  = Some (default [] (header w !! key) ++ [value]).
Proof. rewrite lookup_add_header. by case_decide. Qed.

Lemma testHandler_header w r : header (writer (testHandler w r)) = header w.
Proof.
  unfold testHandler. case_bool_decide; simpl.
  - unfold Write. simpl. apply header_WriteHeader.
  - apply header_WriteHeader.
Qed.

Lemma testHandler_keeps_absent key : keeps_absent testHandler key.
Proof. intros w r H. by rewrite testHandler_header. Qed.

(** ** What [initialize] stores *)

Lemma initialize_inv config c :
  initialize config = Some c →
  let listed := bool_decide (0 < len (bytes (AllowedOrigins config)))
                && bool_decide (AllowedOrigins config ≠ "*") in
  allowAllOrigins c = negb listed ∧
  allowCredentials c = (if AllowCredentials config && negb listed
                        then false else AllowCredentials config) ∧
  maxAge c = (if bool_decide (0 < MaxAge config)
              then strconv_Itoa (MaxAge config) else "1800") ∧
  forwardRequest c = ForwardRequest config ∧
  allowedMethods c
  = allowed (bytes_Split (bytes_ToUpper (bytes (methods_of config))) sep) ∧
  allowedMethodsString c = methods_of config.
Proof.
  unfold initialize. intros H.
  apply bind_Some in H as (dh & Hdh & H).
  apply bind_Some in H as (ol & Hol & H).
  apply bind_Some in H as (hs & Hhs & H).
  apply (inj Some) in H. subst c.
  cbn [allowAllOrigins allowCredentials maxAge
    forwardRequest allowedMethods allowedMethodsString].
  unfold methods_of.
  destruct (bool_decide (0 < len (bytes (AllowedMethods config))));
    cbn [fst snd]; split_and!; reflexivity.
Qed.

Lemma initialize_headers config c :
  initialize config = Some c →
  ∃ dh, normalizeHeaders DefaultAllowedHeaders = Some dh ∧
    if bool_decide (0 < len (bytes (AllowedHeaders config))) then
      if bool_decide (AllowedHeaders config = "*") then
        allowAllHeaders c = true ∧ allowedHeaders c = allowed dh ∧
        allowedHeadersString c = "*"
      else
        ∃ hs, normalizeHeaders (AllowedHeaders config) = Some hs ∧
              allowAllHeaders c = false ∧ allowedHeaders c = allowed hs ∧
              allowedHeadersString c = AllowedHeaders config
    else
      allowAllHeaders c = false ∧ allowedHeaders c = allowed dh ∧
      allowedHeadersString c = DefaultAllowedHeaders.
Proof.
  unfold initialize. intros H.
  apply bind_Some in H as (dh & Hdh & H).
  apply bind_Some in H as (ol & Hol & H).
  apply bind_Some in H as (hs & Hhs & H).
  apply (inj Some) in H. subst c.
  cbn [allowAllHeaders allowedHeaders allowedHeadersString].
  exists dh. split; [exact Hdh|]. clear Hdh Hol.
  change (strings_TrimSpace "*") with "*" in Hhs.
  destruct (bool_decide (0 < len (bytes (AllowedHeaders config)))).
  - destruct (bool_decide (AllowedHeaders config = "*")).
    + apply (inj Some) in Hhs. subst hs. by split_and!.
    + apply bind_Some in Hhs as (headers & Hheaders & Hhs).
      apply (inj Some) in Hhs. subst hs. exists headers. by split_and!.
  - apply (inj Some) in Hhs. subst hs. by split_and!.
Qed.

Lemma initialize_allowAllOrigins config c :
  initialize config = Some c →
  allowAllOrigins c = true ↔
  (AllowedOrigins config = "" ∨ AllowedOrigins config = "*").
Proof.
  intros H. apply initialize_inv in H as (-> & _).
  rewrite negb_true_iff, andb_false_iff, !bool_decide_eq_false.
  rewrite len_bytes_pos. split.
  - intros [H1|H1]; [left|right]; by apply dec_stable.
  - intros [->| ->]; [left|right]; auto.
Qed.

Lemma initialize_allowCredentials config c :
  initialize config = Some c →
  allowCredentials c = AllowCredentials config && negb (allowAllOrigins c).
Proof.
  intros H. apply initialize_inv in H as (-> & -> & _).
  destruct (AllowCredentials config); simpl; [|done].
  by destruct (negb _).
Qed.

(** ** Origins *)

(** [TestRegexWildcardOrigin], [TestPrefixWildcardOrigin] and
    [TestDisallowedWildcardOrigin]. *)
Example wildcard_origin_tests :
  isOriginAllowed (compiled (Config_origins "http://foo.*.com"))
    "http://foo.bar.com" = true ∧
  isOriginAllowed (compiled (Config_origins "http://*.bar.com"))
    "http://foo.bar.com" = true ∧
  isOriginAllowed (compiled (Config_origins "http://*.bar.com"))
    "http://foo.baz.com" = false.
Proof. by vm_compute. Qed.

(** The pattern [*.example.com] after a space, as the second entry of a
    list is written, is compiled to the regular expression
    [.*\.example\.com] and keeps the dot. *)
Lemma regex_origin_keeps_dot :
  ∃ c, initialize (Config_origins " *.example.com") = Some c ∧
       allowedSuffixOrigins c = [] ∧
       allowedRegexOrigins c
       = [ReStar :: (ReLit <$> bytes ".example.com")] ∧
       isOriginAllowed c "http://foo.example.com" = true ∧
       isOriginAllowed c "http://fooexample.com" = false.
Proof.
  exists (compiled (Config_origins " *.example.com")).
  split; [run|]. by vm_compute.
Qed.

(** The lists of origins that [initialize] stores when the configured
    origins are neither empty nor ["*"]. *)
Lemma initialize_origins config c :
  initialize config = Some c →
  AllowedOrigins config ≠ "" → AllowedOrigins config ≠ "*" →
  ∃ ol, origin_range (strings_Split (AllowedOrigins config) sep) no_origins
        = Some ol ∧
        allowAllOrigins c = false ∧
        allowedStaticOrigins c = ol_static ol ∧
        allowedSuffixOrigins c = ol_suffix ol ∧
        allowedRegexOrigins c = ol_regex ol.
Proof.
  unfold initialize. intros H Hne Hstar.
  apply bind_Some in H as (dh & _ & H).
  apply bind_Some in H as (ol & Hol & H).
  apply bind_Some in H as (hs & _ & H).
  apply (inj Some) in H. subst c.
  cbn [allowAllOrigins allowedStaticOrigins allowedSuffixOrigins
       allowedRegexOrigins].
  rewrite (bool_decide_eq_true_2 (0 < _)) in * by by apply len_bytes_pos.
  rewrite (bool_decide_eq_true_2 (_ ≠ _)) in * by done.
  exists ol. by split_and!.
Qed.

Lemma has_prefix_nil s : has_prefix s [] = true.
Proof. by destruct s. Qed.

(** The entry [*.d] goes to the list of suffixes as [d]. *)
Lemma suffix_pattern_lists d :
  sep ∉ bytes d →
  origin_range (strings_Split ("*." +:+ d) sep) no_origins
  = Some {| ol_regex := []; ol_static := []; ol_suffix := [d] |}.
Proof.
  intros Hd. unfold strings_Split.
  assert (bytes ("*." +:+ d) = "*"%char :: "."%char :: bytes d) as Hb
    by by rewrite bytes_append.
  rewrite split_on_no_sep.
  2:{ rewrite Hb. rewrite !not_elem_of_cons. by split_and!. }
  cbn [fmap list_fmap origin_range]. rewrite str_bytes.
  unfold origin_body, strings_IndexAny, strings_Index, string_from.
  rewrite Hb. cbn [index_any_from index_from has_prefix].
  change (bytes "*") with ["*"%char].
  change (bytes "*.") with ["*"%char; "."%char].
  rewrite (bool_decide_eq_true_2 ("*"%char ∈ ["*"%char])) by (by left).
  rewrite (bool_decide_eq_false_2 (0 = -1)) by done.
  rewrite !Ascii.eqb_refl. cbn [andb].
  rewrite has_prefix_nil. rewrite (bool_decide_eq_true_2 (0 = 0)) by done.
  unfold slice, len.
  rewrite bool_decide_eq_true_2 by (cbn [length]; lia).
  cbn [fmap option_fmap option_map mbind option_bind ol_regex ol_static
       ol_suffix no_origins app].
  replace (Z.to_nat 2) with 2%nat by done. cbn [drop].
  rewrite drop_0, take_ge by (cbn [length]; lia). by rewrite str_bytes.
Qed.

(** With the origin [*.d] configured, [isOriginAllowed] is
    [strings.HasSuffix(origin, d)]. *)
Lemma suffix_pattern_is_HasSuffix d c origin :
  sep ∉ bytes d →
  initialize (Config_origins ("*." +:+ d)) = Some c →
  allowedSuffixOrigins c = [d] ∧
  isOriginAllowed c origin = strings_HasSuffix origin d.
Proof.
  intros Hd Hinit.
  destruct (initialize_origins _ _ Hinit) as (ol & Hol & Hall & Hst & Hsu & Hre).
  { cbn. intros H. apply (f_equal bytes) in H. rewrite bytes_append in H. done. }
  { cbn. intros H. apply (f_equal bytes) in H. rewrite bytes_append in H. done. }
  cbn [Config_origins AllowedOrigins] in Hol.
  rewrite suffix_pattern_lists in Hol by done. apply (inj Some) in Hol. subst ol.
  cbn in Hst, Hsu, Hre. split; [done|].
  unfold isOriginAllowed. rewrite Hall, Hst, Hsu, Hre.
  cbn [existsb]. rewrite orb_false_r. unfold strings_HasSuffix.
  by destruct (bool_decide (len (bytes d) ≤ len (bytes origin))),
       (bool_decide (_ = _)).
Qed.

(** C1: for the configured origin ["*.example.com"], [initialize] stores
    the suffix ["example.com"], without the dot, and [isOriginAllowed]
    accepts exactly the origins that end with it: ["http://foo.example.com"]
    is allowed, and so is ["http://fooexample.com"]. *)
Theorem suffix_origin_loses_dot :
  ∃ c, initialize (Config_origins "*.example.com") = Some c ∧
       allowedSuffixOrigins c = ["example.com"] ∧
       (∀ origin,
          isOriginAllowed c origin = strings_HasSuffix origin "example.com") ∧
       isOriginAllowed c "http://foo.example.com" = true ∧
       isOriginAllowed c "http://fooexample.com" = true.
Proof.
  exists (compiled (Config_origins "*.example.com")).
  split; [run|]. split; [run|]. split; [|by vm_compute].
  intros origin. apply (suffix_pattern_is_HasSuffix "example.com"); [|run].
  apply (bool_decide_unpack (sep ∉ bytes "example.com")). by vm_compute.
Qed.

Lemma index_any_from_none s chars i :
  Forall (λ c, c ∉ chars) s → index_any_from s chars i = -1.
Proof.
  intros Hs. revert i. induction Hs as [|c s Hc _ IH]; intros i; [done|].
  cbn [index_any_from]. by rewrite bool_decide_eq_false_2.
Qed.

(** Every entry without [*] is stored as a static origin, as it is: with
    its spaces, and with its [?]. *)
Lemma origin_body_static acc o :
  "*"%char ∉ bytes o →
  origin_body acc o
  = Some {| ol_regex := ol_regex acc;
            ol_static := ol_static acc ++ [o];
            ol_suffix := ol_suffix acc |}.
Proof.
  intros Ho. unfold origin_body, strings_IndexAny.
  rewrite index_any_from_none; [by rewrite bool_decide_eq_true_2|].
  apply Forall_forall. intros c Hc [->|H]%elem_of_cons; [done|].
  by apply elem_of_nil in H.
Qed.

(** C8: [initialize] classifies the entries as [strings.Split] returns
    them, without trimming, and an entry without [*] is a static origin
    also when it contains [?].  For the origins
    ["http://foo?.com, http://foobar.com"] both entries are static, the
    second one with its space in front; ["http://foo1.com"] and
    ["http://foobar.com"] are rejected. *)
Theorem origins_not_trimmed_and_question_mark_static :
  ∃ c, initialize (Config_origins "http://foo?.com, http://foobar.com")
       = Some c ∧
       allowedStaticOrigins c = ["http://foo?.com"; " http://foobar.com"] ∧
       allowedSuffixOrigins c = [] ∧
       allowedRegexOrigins c = [] ∧
       isOriginAllowed c "http://foo1.com" = false ∧
       isOriginAllowed c "http://foobar.com" = false ∧
       isOriginAllowed c "http://foo?.com" = true ∧
       isOriginAllowed c " http://foobar.com" = true.
Proof.
  exists (compiled (Config_origins "http://foo?.com, http://foobar.com")).
  split; [run|]. by vm_compute.
Qed.

(** An entry with [*] goes through [strings.TrimSpace] and the regular
    expression, where [?] stands for one byte. *)
Lemma regex_origin_trimmed_and_question_mark :
  ∃ c, initialize (Config_origins "http://a.com, http://f?o.*.com") = Some c ∧
       allowedStaticOrigins c = ["http://a.com"] ∧
       isOriginAllowed c "http://foo.bar.com" = true ∧
       isOriginAllowed c "http://fo.bar.com" = false.
Proof.
  exists (compiled (Config_origins "http://a.com, http://f?o.*.com")).
  split; [run|]. by vm_compute.
Qed.

(** ** The credentials header *)

(** A filter whose [allowCredentials] is off never creates the header
    [Access-Control-Allow-Credentials]. *)
Lemma filter_no_credentials c next w r :
  allowCredentials c = false →
  keeps_absent next AccessControlAllowCredentials →
  header w !! AccessControlAllowCredentials = None →
  header (writer (filter c next w r)) !! AccessControlAllowCredentials = None.
Proof.
  intros Hc Hnext Hw. unfold filter. rewrite Hc.
  repeat first
    [ assumption
    | apply Hnext
    | rewrite header_WriteHeader
    | rewrite lookup_add_header_ne by done
    | progress cbn [writer]
    | match goal with
      | |- context [if ?b then _ else _] => destruct b
      | |- context [match ?o with Some _ => _ | None => _ end] => destruct o
      end ].
Qed.

(** C2: when the configuration asks for credentials and its origins are
    the empty string or ["*"], the compiled filter has [allowCredentials]
    off, and no run of the filter creates the header
    [Access-Control-Allow-Credentials]: it is absent from the response
    writer after the filter (also at a panic) whenever it was absent before
    and the next handler does not create it itself. *)
Theorem credentials_off_when_all_origins_allowed config c :
  AllowCredentials config = true →
  AllowedOrigins config = "" ∨ AllowedOrigins config = "*" →
  initialize config = Some c →
  allowCredentials c = false ∧
  ∀ next w r,
    keeps_absent next AccessControlAllowCredentials →
    header w !! AccessControlAllowCredentials = None →
    header (writer (filter c next w r)) !! AccessControlAllowCredentials
    = None.
Proof.
  intros Hcred Horigins Hinit.
  assert (allowCredentials c = false) as Hoff.
  { rewrite (initialize_allowCredentials _ _ Hinit).
    apply (initialize_allowAllOrigins _ _ Hinit) in Horigins.
    rewrite Horigins. apply andb_false_r. }
  split; [exact Hoff|].
  intros next w r. by apply filter_no_credentials.
Qed.

(** An instance: [TestHandleActualRequestIgnoreAllowsCredentials]. *)
Lemma credentials_off_when_all_origins_allowed_witness :
  ∃ c, initialize Config_all_origins_credentials = Some c ∧
       allowCredentials c = false ∧
       header (writer (filter c testHandler NewRecorder get_example))
         !! AccessControlAllowCredentials = None.
Proof.
  exists (compiled Config_all_origins_credentials). split; [run|].
  destruct (credentials_off_when_all_origins_allowed
              Config_all_origins_credentials
              (compiled Config_all_origins_credentials)
              eq_refl (or_intror eq_refl) ltac:(run))
    as [Hoff Hfilter].
  split; [exact Hoff|].
  apply Hfilter; [apply testHandler_keeps_absent | reflexivity].
Defined.

(** [TestHandleActualRequestAllowsCredentials]: with a listed origin the
    header is sent. *)
Example credentials_sent_for_listed_origin :
  header (recorded
            {| AllowedOrigins := "http://example.com"; AllowedMethods := "";
               AllowedHeaders := ""; ExposedHeaders := ""; MaxAge := 0;
               AllowCredentials := true; ForwardRequest := false |}
            get_example)
    !! AccessControlAllowCredentials = Some ["true"].
Proof. by vm_compute. Qed.

(** ** The paths of [filter] *)

Section paths.
Context (c : cors) (next : Handler) (w : ResponseWriter) (r : Request).
Hypothesis Horigin : origin_allowed c r.

(** Past the check of the origin. *)
Ltac past_origin :=
  destruct Horigin as [Ho Ha]; unfold filter;
  rewrite bool_decide_eq_false_2 by exact Ho; rewrite Ha.

(** Past the check of the method of a preflight request. *)
Ltac past_options Hm Hopt :=
  past_origin; rewrite Hm, Hopt; cbn [negb];
  rewrite bool_decide_eq_false_2 by (intros H; by apply H).

Lemma filter_method_rejected :
  isMethodAllowed c (Method r) = false →
  filter c next w r
  = Returned (WriteHeader (after_vary w) StatusMethodNotAllowed).
Proof. intros Hm. past_origin. by rewrite Hm. Qed.

Lemma filter_requested_method_rejected :
  Method r = MethodOptions →
  isMethodAllowed c MethodOptions = true →
  isMethodAllowed c (Header_Get (ReqHeader r) AccessControlRequestMethod)
  = false →
  filter c next w r
  = Returned (WriteHeader (at_preflight w r) StatusMethodNotAllowed).
Proof. intros Hm Hopt Hreq. past_options Hm Hopt. by rewrite Hreq. Qed.

Lemma filter_preflight_headers_checked :
  Method r = MethodOptions →
  isMethodAllowed c MethodOptions = true →
  isMethodAllowed c (Header_Get (ReqHeader r) AccessControlRequestMethod)
  = true →
  filter c next w r
  = match areReqHeadersAllowed c
            (Header_Get (ReqHeader r) AccessControlRequestHeaders) with
    | None => Panicked (at_preflight w r)
    | Some false => Returned (WriteHeader (at_preflight w r) StatusForbidden)
    | Some true =>
        if forwardRequest c then next (preflight_response c w r) r
        else Returned (WriteHeader (preflight_response c w r) StatusOK)
    end.
Proof.
  intros Hm Hopt Hreq. past_options Hm Hopt. rewrite Hreq. reflexivity.
Qed.

(** With both checks of the method passed, [filter] ends in one of four
    ways, none of which writes the status 405. *)
Lemma filter_preflight_methods_allowed :
  Method r = MethodOptions →
  isMethodAllowed c MethodOptions = true →
  isMethodAllowed c (Header_Get (ReqHeader r) AccessControlRequestMethod)
  = true →
  filter c next w r = Panicked (at_preflight w r) ∨
  filter c next w r
  = Returned (WriteHeader (at_preflight w r) StatusForbidden) ∨
  filter c next w r
  = Returned (WriteHeader (preflight_response c w r) StatusOK) ∨
  filter c next w r = next (preflight_response c w r) r.
Proof.
  intros Hm Hopt Hreq.
  rewrite (filter_preflight_headers_checked Hm Hopt Hreq).
  destruct (areReqHeadersAllowed c _) as [[]|]; auto.
  destruct (forwardRequest c); auto.
Qed.

End paths.

Lemma filter_preflight_accepted c next w r :
  preflight_accepted c r →
  filter c next w r
  = if forwardRequest c then next (preflight_response c w r) r
    else Returned (WriteHeader (preflight_response c w r) StatusOK).
Proof.
  intros (Ho & Hm & Hopt & Hreq & Hhs).
  rewrite (filter_preflight_headers_checked c next w r Ho Hm Hopt Hreq).
  by rewrite Hhs.
Qed.

(** ** Preflight requests and the method [OPTIONS] *)

(** With [AllowedMethods: "GET"], a preflight request for [GET] from an
    allowed origin is rejected with 405: [OPTIONS] is not in the list. *)
Lemma preflight_rejected_without_options :
  ∃ c w, initialize Config_get_only = Some c ∧
         origin_allowed c preflight_get ∧
         Method preflight_get = MethodOptions ∧
         isMethodAllowed c
           (Header_Get (ReqHeader preflight_get) AccessControlRequestMethod)
         = true ∧
         filter c testHandler NewRecorder preflight_get = Returned w ∧
         Code w = StatusMethodNotAllowed.
Proof.
  exists (compiled Config_get_only),
    (WriteHeader (after_vary NewRecorder) StatusMethodNotAllowed).
  split; [run|]. split; [split; [by vm_compute | run]|].
  split; [reflexivity|]. split; [run|]. split; [run|]. reflexivity.
Qed.

(** C3 (amended): for a preflight request (method [OPTIONS], allowed
    origin) the filter first looks up the request method [OPTIONS] itself
    and then the value of [Access-Control-Request-Method].  If [OPTIONS] is
    not in the allow-set the request is rejected with 405 and the requested
    method is never read; if [OPTIONS] is in the allow-set the request is
    rejected with 405 when the requested method is not; and if both are in
    the allow-set the filter does not write 405: it panics in
    [normalizeHeaders], writes 403 or 200, or calls the next handler. *)
Theorem preflight_checks_options_then_requested_method c next w r :
  origin_allowed c r →
  Method r = MethodOptions →
  (isMethodAllowed c MethodOptions = false →
   filter c next w r
   = Returned (WriteHeader (after_vary w) StatusMethodNotAllowed)) ∧
  (isMethodAllowed c MethodOptions = true →
   isMethodAllowed c (Header_Get (ReqHeader r) AccessControlRequestMethod)
   = false →
   filter c next w r
   = Returned (WriteHeader (at_preflight w r) StatusMethodNotAllowed)) ∧
  (isMethodAllowed c MethodOptions = true →
   isMethodAllowed c (Header_Get (ReqHeader r) AccessControlRequestMethod)
   = true →
   filter c next w r = Panicked (at_preflight w r) ∨
   filter c next w r
   = Returned (WriteHeader (at_preflight w r) StatusForbidden) ∨
   filter c next w r
   = Returned (WriteHeader (preflight_response c w r) StatusOK) ∨
   filter c next w r = next (preflight_response c w r) r).
Proof.
  intros Ho Hm. split_and!.
  - intros Hopt. apply filter_method_rejected; [assumption|].
    rewrite Hm. exact Hopt.
  - intros Hopt Hreq. apply filter_requested_method_rejected; assumption.
  - intros Hopt Hreq. apply filter_preflight_methods_allowed; assumption.
Qed.

(** An instance: the preflight request for [GET] under
    [AllowedMethods: "GET"]. *)
Lemma preflight_checks_options_then_requested_method_witness :
  ∃ c, initialize Config_get_only = Some c ∧
       filter c testHandler NewRecorder preflight_get
       = Returned (WriteHeader (after_vary NewRecorder) StatusMethodNotAllowed).
Proof.
  exists (compiled Config_get_only). split; [run|].
  apply (proj1 (preflight_checks_options_then_requested_method
                  (compiled Config_get_only) testHandler NewRecorder
                  preflight_get
                  ltac:(split; [by vm_compute | run]) eq_refl)).
  run.
Defined.

(** [TestAllowedMethod]: with [OPTIONS] in the list the requested method
    decides. *)
Example preflight_put_accepted :
  Code (recorded Config_put_delete preflight_put) = StatusOK ∧
  header (recorded Config_put_delete preflight_put)
    !! AccessControlAllowMethods = Some ["PUT,DELETE,OPTIONS"].
Proof. by vm_compute. Qed.

(** ** The allow-set of methods *)

Lemma allowed_lookup_from (l : list (list ascii)) (m : gmap string bool) k :
  foldl (λ m a, <[str a := true]> m) m l !! k
  = if decide (bytes k ∈ l) then Some true else m !! k.
Proof.
  revert m. induction l as [|a l IH]; intros m; cbn [foldl].
  - case_decide as H; [by apply elem_of_nil in H | done].
  - rewrite IH. destruct (decide (bytes k ∈ l)) as [Hin|Hin].
    + rewrite decide_True; [done | by right].
    + destruct (decide (a = bytes k)) as [->|Hne].
      * rewrite str_bytes, lookup_insert_eq.
        rewrite decide_True; [done | by left].
      * rewrite lookup_insert_ne.
        2:{ intros <-. by rewrite bytes_str in Hne. }
        rewrite decide_False; [done|].
        intros [?|?]%elem_of_cons; congruence.
Qed.

(** A key reads as [true] in the map that [allowed] builds exactly when
    it is one of the elements. *)
Lemma allowed_lookup (l : list (list ascii)) k :
  default false (allowed l !! k) = bool_decide (bytes k ∈ l).
Proof.
  unfold allowed. rewrite allowed_lookup_from, lookup_empty.
  by case_decide; case_bool_decide.
Qed.

Lemma isMethodAllowed_spec config c m :
  initialize config = Some c →
  isMethodAllowed c m
  = bool_decide
      (bytes m ∈ bytes_Split (bytes_ToUpper (bytes (methods_of config))) sep).
Proof.
  intros H. apply initialize_inv in H as (_ & _ & _ & _ & Hm & _).
  unfold isMethodAllowed. rewrite Hm. apply allowed_lookup.
Qed.

Lemma isMethodAllowed_lower config c m :
  initialize config = Some c → has_lower m → isMethodAllowed c m = false.
Proof.
  intros H (x & Hx & Hlow). rewrite (isMethodAllowed_spec _ _ _ H).
  apply bool_decide_eq_false. intros Hin.
  pose proof (split_on_elem _ _ _ _ Hin Hx) as Hup.
  apply bytes_ToUpper_not_lower in Hup. congruence.
Qed.

(** With the default methods, the request method [get] from an allowed
    origin is rejected with 405, although its upper case [GET] is
    allowed. *)
Lemma lower_case_method_rejected :
  ∃ c w, initialize Config_default = Some c ∧
         origin_allowed c get_lower_case ∧
         isMethodAllowed c (str (bytes_ToUpper (bytes (Method get_lower_case))))
         = true ∧
         filter c testHandler NewRecorder get_lower_case = Returned w ∧
         Code w = StatusMethodNotAllowed.
Proof.
  exists (compiled Config_default),
    (WriteHeader (after_vary NewRecorder) StatusMethodNotAllowed).
  split; [run|]. split; [split; [by vm_compute | run]|].
  split; [run|]. split; [run|]. reflexivity.
Qed.

(** The same for the requested method of a preflight request: [put] is
    refused where [PUT] is allowed. *)
Lemma lower_case_requested_method_rejected :
  Code (recorded Config_put_delete preflight_put_lower_case)
  = StatusMethodNotAllowed ∧
  Code (recorded Config_put_delete preflight_put) = StatusOK.
Proof. by vm_compute. Qed.

(** C4 (amended): the filter looks up the request method, and for a
    preflight request the value of [Access-Control-Request-Method], as
    they were received.  Only the configured list is brought to upper
    case: a method is allowed exactly when it is, byte for byte, one of the
    pieces of the upper-cased list.  A method with a lower-case letter is
    therefore rejected with 405, also when it differs from an allowed
    method only in case. *)
Theorem methods_compared_as_received config c :
  initialize config = Some c →
  (∀ m, isMethodAllowed c m = true ↔
        bytes m ∈ bytes_Split (bytes_ToUpper (bytes (methods_of config))) sep) ∧
  ∀ next w r,
    origin_allowed c r →
    (has_lower (Method r) →
     filter c next w r
     = Returned (WriteHeader (after_vary w) StatusMethodNotAllowed)) ∧
    (Method r = MethodOptions →
     isMethodAllowed c MethodOptions = true →
     has_lower (Header_Get (ReqHeader r) AccessControlRequestMethod) →
     filter c next w r
     = Returned (WriteHeader (at_preflight w r) StatusMethodNotAllowed)).
Proof.
  intros Hinit. split.
  - intros m. rewrite (isMethodAllowed_spec _ _ _ Hinit).
    apply bool_decide_eq_true.
  - intros next w r Ho. split.
    + intros Hlow. apply filter_method_rejected; [assumption|].
      eapply isMethodAllowed_lower; eassumption.
    + intros Hm Hopt Hlow.
      apply filter_requested_method_rejected; [assumption..|].
      eapply isMethodAllowed_lower; eassumption.
Qed.

(** An instance: the default methods and the request method [get]. *)
Lemma methods_compared_as_received_witness :
  ∃ c, initialize Config_default = Some c ∧
       isMethodAllowed c "GET" = true ∧
       filter c testHandler NewRecorder get_lower_case
       = Returned (WriteHeader (after_vary NewRecorder) StatusMethodNotAllowed).
Proof.
  exists (compiled Config_default). split; [run|].
  destruct (methods_compared_as_received Config_default
              (compiled Config_default) ltac:(run)) as [Hset Hfilter].
  split.
  - apply Hset. vm_compute. by repeat constructor.
  - apply Hfilter.
    + split; [by vm_compute | run].
    + exists "g"%char. split; [vm_compute; by repeat constructor | reflexivity].
Defined.

(** ** The scenario of [TestDisallowedMethod] *)

(** The response of the scenario does not have both the status 405 and
    no [Access-Control-Allow-Origin]. *)
Lemma disallowed_method_response_has_allow_origin :
  ∃ w, serve Config_put_delete preflight_patch = Some (Returned w) ∧
       ¬ (Code w = 405 ∧ header w !! AccessControlAllowOrigin = None).
Proof.
  exists (recorded Config_put_delete preflight_patch). split; [run|].
  intros [_ H]. vm_compute in H. discriminate H.
Qed.

(** C5 (amended): for [{AllowedOrigins: "http://foobar.com",
    AllowedMethods: "PUT,DELETE,OPTIONS"}] and the preflight request with
    [Origin: http://foobar.com] and [Access-Control-Request-Method: PATCH],
    the status is 405 and the response carries
    [Access-Control-Allow-Origin: http://foobar.com], which the filter adds
    before it looks at the requested method; it carries none of
    [Access-Control-Allow-Methods], [Access-Control-Allow-Headers],
    [Access-Control-Allow-Credentials] and [Access-Control-Max-Age]. *)
Theorem disallowed_method_response :
  ∃ w, serve Config_put_delete preflight_patch = Some (Returned w) ∧
       Code w = 405 ∧
       header w !! AccessControlAllowOrigin = Some ["http://foobar.com"] ∧
       header w !! VaryHeader
       = Some ["Origin";
               "Access-Control-Request-Method, Access-Control-Request-Headers"] ∧
       header w !! AccessControlAllowMethods = None ∧
       header w !! AccessControlAllowHeaders = None ∧
       header w !! AccessControlAllowCredentials = None ∧
       header w !! AccessControlControlMaxAge = None ∧
       Body w = [].
Proof.
  exists (recorded Config_put_delete preflight_patch). split; [run|].
  by vm_compute.
Qed.

(** ** [Access-Control-Max-Age] *)

Lemma strconv_Itoa_not_zero n : 0 < n → strconv_Itoa n ≠ "0".
Proof.
  intros Hn Heq. assert (n = 0) as ->; [|lia].
  apply (inj (pretty : Z → string)). exact Heq.
Qed.

Lemma maxAge_not_zero config c : initialize config = Some c → maxAge c ≠ "0".
Proof.
  intros H. apply initialize_inv in H as (_ & _ & -> & _).
  case_bool_decide; [by apply strconv_Itoa_not_zero | discriminate].
Qed.

Lemma preflight_response_max_age c w r :
  maxAge c ≠ "0" →
  header (preflight_response c w r) !! AccessControlControlMaxAge
  = Some (default [] (header w !! AccessControlControlMaxAge) ++ [maxAge c]).
Proof.
  intros Hne. unfold preflight_response, at_preflight, after_vary.
  rewrite bool_decide_eq_true_2 by done.
  rewrite lookup_add_header_eq. do 2 f_equal.
  destruct (allowCredentials c), (allowAllHeaders c);
    by rewrite !lookup_add_header_ne by done.
Qed.

(** [TestAllowedMethod] has [MaxAge] 0, and its response carries
    [Access-Control-Max-Age: 1800]. *)
Lemma max_age_zero_not_suppressed :
  ∃ w, MaxAge Config_put_delete = 0 ∧
       serve Config_put_delete preflight_put = Some (Returned w) ∧
       Code w = StatusOK ∧
       header w !! AccessControlControlMaxAge = Some ["1800"].
Proof.
  exists (recorded Config_put_delete preflight_put). split; [reflexivity|].
  split; [run|]. by vm_compute.
Qed.

(** [TestMaxAge]: [MaxAge: 10]. *)
Example max_age_ten :
  header (recorded
            {| AllowedOrigins := "http://example.com";
               AllowedMethods := "GET,OPTIONS"; AllowedHeaders := "";
               ExposedHeaders := ""; MaxAge := 10; AllowCredentials := false;
               ForwardRequest := false |}
            preflight_get)
    !! AccessControlControlMaxAge = Some ["10"].
Proof. by vm_compute. Qed.

(** C9 (amended): a [MaxAge] of 0 is the zero value of the field and
    reads as unset.  For every [MaxAge <= 0] the compiled max-age is the
    default ["1800"], for a positive [MaxAge] it is its decimal form, and it
    is never ["0"]; the response to every accepted preflight request gets
    [Access-Control-Max-Age] with this value. *)
Theorem max_age_zero_is_default config c :
  initialize config = Some c →
  (MaxAge config ≤ 0 → maxAge c = "1800") ∧
  (0 < MaxAge config → maxAge c = strconv_Itoa (MaxAge config)) ∧
  maxAge c ≠ "0" ∧
  ∀ next w r,
    preflight_accepted c r →
    header (preflight_response c w r) !! AccessControlControlMaxAge
    = Some (default [] (header w !! AccessControlControlMaxAge) ++ [maxAge c]) ∧
    filter c next w r
    = if forwardRequest c then next (preflight_response c w r) r
      else Returned (WriteHeader (preflight_response c w r) StatusOK).
Proof.
  intros Hinit. pose proof (maxAge_not_zero _ _ Hinit) as Hne.
  pose proof (initialize_inv _ _ Hinit) as (_ & _ & Hage & _).
  clear Hinit. split_and!.
  - intros Hle. rewrite Hage. by rewrite bool_decide_eq_false_2 by lia.
  - intros Hlt. rewrite Hage. by rewrite bool_decide_eq_true_2 by lia.
  - exact Hne.
  - intros next w r Hacc. split.
    + apply preflight_response_max_age. exact Hne.
    + apply filter_preflight_accepted. exact Hacc.
Qed.

(** An instance: [TestAllowedMethod]. *)
Lemma max_age_zero_is_default_witness :
  ∃ c, initialize Config_put_delete = Some c ∧
       maxAge c = "1800" ∧
       header (preflight_response c NewRecorder preflight_put)
         !! AccessControlControlMaxAge = Some ["1800"] ∧
       filter c testHandler NewRecorder preflight_put
       = Returned (WriteHeader (preflight_response c NewRecorder preflight_put)
                     StatusOK).
Proof.
  exists (compiled Config_put_delete). split; [run|].
  destruct (max_age_zero_is_default Config_put_delete
              (compiled Config_put_delete) ltac:(run))
    as (Hle & _ & _ & Hfilter).
  split; [apply Hle; vm_compute; discriminate|].
  apply (Hfilter testHandler NewRecorder preflight_put).
  repeat split; try run. by vm_compute.
Defined.

(** ** [Access-Control-Allow-Headers] *)

Lemma preflight_response_allow_headers c w r :
  header (preflight_response c w r) !! AccessControlAllowHeaders
  = Some (default [] (header w !! AccessControlAllowHeaders) ++
          [if allowAllHeaders c
           then Header_Get (ReqHeader r) AccessControlRequestHeaders
           else allowedHeadersString c]).
Proof.
  unfold preflight_response, at_preflight, after_vary.
  destruct (bool_decide (maxAge c ≠ "0")), (allowCredentials c),
    (allowAllHeaders c);
    rewrite ?lookup_add_header_ne by done;
    rewrite lookup_add_header_eq;
    by rewrite !lookup_add_header_ne by done.
Qed.

(** C10: [allowAllHeaders] is set exactly when the configured
    [AllowedHeaders] is the string ["*"].  Every other non-empty value is
    given to [normalizeHeaders] and its tokens are the allow-set, so that
    for [" * "] and for ["*,X-Header"] the token ["*"] is a key of the
    allow-set; and the response to an accepted preflight request then
    carries the configured string in [Access-Control-Allow-Headers], not
    the value of [Access-Control-Request-Headers]. *)
Theorem allow_all_headers_only_for_star config c :
  initialize config = Some c →
  (allowAllHeaders c = true ↔ AllowedHeaders config = "*") ∧
  (AllowedHeaders config ≠ "*" → AllowedHeaders config ≠ "" →
   ∃ hs, normalizeHeaders (AllowedHeaders config) = Some hs ∧
         allowedHeaders c = allowed hs ∧
         allowedHeadersString c = AllowedHeaders config) ∧
  (AllowedHeaders config = " * " ∨ AllowedHeaders config = "*,X-Header" →
   allowAllHeaders c = false ∧ allowedHeaders c !! "*" = Some true) ∧
  (AllowedHeaders config ≠ "*" →
   ∀ next w r,
     preflight_accepted c r →
     header (preflight_response c w r) !! AccessControlAllowHeaders
     = Some (default [] (header w !! AccessControlAllowHeaders) ++
             [allowedHeadersString c]) ∧
     filter c next w r
     = if forwardRequest c then next (preflight_response c w r) r
       else Returned (WriteHeader (preflight_response c w r) StatusOK)).
Proof.
  intros Hinit.
  pose proof (initialize_headers _ _ Hinit) as (dh & _ & Hcases).
  clear Hinit.
  assert (allowAllHeaders c = true ↔ AllowedHeaders config = "*") as Hiff.
  { destruct (bool_decide (0 < len (bytes (AllowedHeaders config)))) eqn:Hlen.
    - case_bool_decide as Hstar.
      + destruct Hcases as (-> & _). by split.
      + destruct Hcases as (hs & _ & -> & _). by split.
    - destruct Hcases as (-> & _). split; [done|]. intros Hstar.
      rewrite Hstar in Hlen. by vm_compute in Hlen. }
  assert (AllowedHeaders config ≠ "*" → AllowedHeaders config ≠ "" →
          ∃ hs, normalizeHeaders (AllowedHeaders config) = Some hs ∧
                allowAllHeaders c = false ∧
                allowedHeaders c = allowed hs ∧
                allowedHeadersString c = AllowedHeaders config) as Hlist.
  { intros Hstar Hempty.
    rewrite bool_decide_eq_true_2 in Hcases by by apply len_bytes_pos.
    by rewrite bool_decide_eq_false_2 in Hcases by done. }
  split_and!.
  - exact Hiff.
  - intros Hstar Hempty. destruct (Hlist Hstar Hempty) as (hs & ? & ? & ? & ?).
    by exists hs.
  - intros [Heq|Heq]; rewrite Heq in Hlist;
      destruct Hlist as (hs & Hhs & Hall & Hset & _); try discriminate;
      (split; [exact Hall|]); rewrite Hset;
      vm_compute in Hhs; apply (inj Some) in Hhs; subst hs;
      by vm_compute.
  - intros Hstar next w r Hacc. split.
    + rewrite preflight_response_allow_headers.
      destruct (allowAllHeaders c); [|reflexivity].
      destruct Hstar. by apply Hiff.
    + apply filter_preflight_accepted. exact Hacc.
Qed.

(** An instance: [AllowedHeaders: " * "] and a preflight request for the
    header [*]. *)
Lemma allow_all_headers_only_for_star_witness :
  ∃ c, initialize (Config_headers " * ") = Some c ∧
       allowAllHeaders c = false ∧
       allowedHeaders c !! "*" = Some true ∧
       header (preflight_response c NewRecorder (preflight_headers "*"))
         !! AccessControlAllowHeaders = Some [" * "] ∧
       filter c testHandler NewRecorder (preflight_headers "*")
       = Returned (WriteHeader
                     (preflight_response c NewRecorder (preflight_headers "*"))
                     StatusOK).
Proof.
  exists (compiled (Config_headers " * ")). split; [run|].
  destruct (allow_all_headers_only_for_star (Config_headers " * ")
              (compiled (Config_headers " * ")) ltac:(run))
    as (_ & _ & Hstar & Hfilter).
  destruct (Hstar (or_introl eq_refl)) as [Hall Hkey].
  split; [exact Hall|]. split; [exact Hkey|].
  apply (Hfilter ltac:(discriminate) testHandler NewRecorder
           (preflight_headers "*")).
  repeat split; try run. by vm_compute.
Defined.

(** With [" * "] configured, a request for a header other than a literal
    [*] is refused. *)
Lemma spaced_star_is_no_wildcard :
  Code (recorded (Config_headers " * ") (preflight_headers "X-Header-1"))
  = StatusForbidden.
Proof. by vm_compute. Qed.

(** With ["*,X-Header"] configured, [x-header] is allowed, another header
    is not, and the response carries the configured string. *)
Lemma star_in_list_is_no_wildcard :
  Code (recorded (Config_headers "*,X-Header") (preflight_headers "X-Other"))
  = StatusForbidden ∧
  Code (recorded (Config_headers "*,X-Header") (preflight_headers "X-Header"))
  = StatusOK ∧
  header (recorded (Config_headers "*,X-Header") (preflight_headers "X-Header"))
    !! AccessControlAllowHeaders = Some ["*,X-Header"].
Proof. by vm_compute. Qed.

(** [TestAllowedWildcardHeader]: with ["*"] configured the requested
    headers are sent back as they came. *)
Lemma star_echoes_requested_headers :
  Code (recorded (Config_headers "*")
          (preflight_headers "X-Header-2, X-HEADER-1")) = StatusOK ∧
  header (recorded (Config_headers "*")
            (preflight_headers "X-Header-2, X-HEADER-1"))
    !! AccessControlAllowHeaders = Some ["X-Header-2, X-HEADER-1"].
Proof. by vm_compute. Qed.

(** ** The revision with regular expressions only, on the same inputs *)

(** The origin [*.example.com] keeps its dot. *)
Lemma variant_suffix_origin_keeps_dot :
  RegexVariant.allows (Config_origins "*.example.com") "http://foo.example.com"
  = Some true ∧
  RegexVariant.allows (Config_origins "*.example.com") "http://fooexample.com"
  = Some false.
Proof. by vm_compute. Qed.

(** Every entry is trimmed, and [?] stands for one byte also without a
    [*]. *)
Lemma variant_origins_trimmed_and_question_mark :
  RegexVariant.allows (Config_origins "http://foo?.com, http://foobar.com")
    "http://foo1.com" = Some true ∧
  RegexVariant.allows (Config_origins "http://foo?.com, http://foobar.com")
    "http://foobar.com" = Some true.
Proof. by vm_compute. Qed.

(** The requested method of a preflight request is brought to upper case;
    the request method is not. *)
Lemma variant_upper_cases_requested_method :
  Code (RegexVariant.recorded Config_put_delete preflight_put_lower_case)
  = StatusOK ∧
  Code (RegexVariant.recorded Config_default get_lower_case)
  = StatusMethodNotAllowed.
Proof. by vm_compute. Qed.

(** [allowCredentials] is copied from the configuration also when every
    origin is allowed. *)
Lemma variant_keeps_credentials :
  header (RegexVariant.recorded Config_all_origins_credentials get_example)
    !! AccessControlAllowCredentials = Some ["true"].
Proof. by vm_compute. Qed.

(** [Access-Control-Allow-Origin] is added before the requested method is
    checked, as in [cors.go]. *)
Lemma variant_disallowed_method_response :
  Code (RegexVariant.recorded Config_put_delete preflight_patch)
  = StatusMethodNotAllowed ∧
  header (RegexVariant.recorded Config_put_delete preflight_patch)
    !! AccessControlAllowOrigin = Some ["http://foobar.com"].
Proof. by vm_compute. Qed.

(** A [MaxAge] of 0 gives the default, as in [cors.go]. *)
Lemma variant_max_age_zero :
  header (RegexVariant.recorded Config_put_delete preflight_put)
    !! AccessControlControlMaxAge = Some ["1800"].
Proof. by vm_compute. Qed.
